(** * go-googletrans: the translator client and its token derivation

    A shallow embedding of [translate.go] (request building, status
    handling, language table, construction of the client) and of the token
    derivation subsystem the client calls through [ta.do].

    Go values are embedded as follows: [int] and the key-pair integers are
    [Z] with the 32-bit wrap-around written out; Go strings are [string];
    [map[string]string] is [gmap string string] behind a location of a
    small heap, because Go maps are reference values; [url.Values] is
    [gmap string (list string)]; a [(T, error)] result is a pair with an
    [option] error. *)

From Stdlib Require Import ZArith String Ascii List Lia DecimalString DecimalPos.
From stdpp Require Import gmap strings list.

Open Scope Z_scope.

(** ** Decimal rendering, as [%d] and [strconv] print an integer *)

Definition decimal (z : Z) : string := NilZero.string_of_int (Z.to_int z).

(** The digit list is not the empty one. *)
Definition nonnil (d : Decimal.uint) : bool :=
  match d with Decimal.Nil => false | _ => true end.

Definition is_digit (c : ascii) : bool :=
  (48 <=? nat_of_ascii c)%nat && (nat_of_ascii c <=? 57)%nat.

(** The regular expression [^\d+\.\d+$] as a two-state scanner: [frac_part]
    recognises [\d+$], [int_part] recognises [\d+\.\d+$]; [seen] records
    that the current run of digits is not empty. *)
Fixpoint frac_part (seen : bool) (s : string) : bool :=
  match s with
  | EmptyString => seen
  | String c s' => is_digit c && frac_part true s'
  end.

Fixpoint int_part (seen : bool) (s : string) : bool :=
  match s with
  | EmptyString => false
  | String c s' =>
      if is_digit c then int_part true s'
      else Ascii.eqb c "." && seen && frac_part false s'
  end.

Definition token_pattern (s : string) : bool := int_part false s.

(** * The token derivation subsystem *)

Module Token.

(** Modelled from the spec: the key pair of the token acquirer (the file
    that declares [tokenAcquirer], [Token] and [do] is not among the
    sources); two 64-bit signed integers. *)
Record KeyPair : Type := { a : Z; b : Z }.

Definition int64 (z : Z) : Prop := - 2 ^ 63 <= z < 2 ^ 63.

Definition valid_pair (p : KeyPair) : Prop := int64 (a p) /\ int64 (b p).

Definition mask32 : Z := 0xFFFFFFFF.

(** The accumulator is kept as its residue modulo 2^32 ([wrap32]); the
    signed reading of the same 32 bits is [signed32]. *)
Definition wrap32 (x : Z) : Z := Z.land x mask32.

Definition signed32 (x : Z) : Z :=
  if wrap32 x <? 0x80000000 then wrap32 x else wrap32 x - 0x100000000.

(** Modelled from the spec: step 1 of the token transform, the expansion of
    a Unicode scalar value into 16-bit code units. *)
Definition expand_scalar (value : Z) : list Z :=
  if value <=? 0xFFFF then [value]
  else [Z.shiftr value 10 + 0xD800; value mod 0x400 + 0xDC00].

Definition expand (text : list Z) : list Z := flat_map expand_scalar text.



(** Modelled from the spec: the magnitude of a micro-op, code minus 87 for a
    lowercase letter and the digit's value otherwise. *)
Definition magnitude (magnitudeChar : ascii) : Z :=
  let n := Z.of_nat (nat_of_ascii magnitudeChar) in
  if (97 <=? n) && (n <=? 122) then n - 87
  else if (48 <=? n) && (n <=? 57) then n - 48
  else 0.

(** Modelled from the spec: [mix], three characters of the program at a
    time; sums and left shifts are masked to 32 bits, the right shift is
    the unsigned one. *)
Fixpoint mix_ops (acc : Z) (program : list ascii) : Z :=
  match program with
  | combineOp :: shiftDirOp :: magnitudeChar :: rest =>
      let m := magnitude magnitudeChar in
      let shifted :=
        if Ascii.eqb shiftDirOp "+" then Z.shiftr (wrap32 acc) m
        else wrap32 (Z.shiftl acc m) in
      let acc' :=
        if Ascii.eqb combineOp "+" then wrap32 (acc + shifted)
        else Z.lxor (wrap32 acc) shifted in
      mix_ops acc' rest
  | _ => acc
  end.

Definition mix (acc : Z) (program : string) : Z :=
  mix_ops acc (list_ascii_of_string program).

(** The same walk over the program, recording for every micro-op the
    shifted value and the accumulator after the combine. *)
Fixpoint mix_trace (acc : Z) (program : list ascii) : list (Z * Z) :=
  match program with
  | combineOp :: shiftDirOp :: magnitudeChar :: rest =>
      let m := magnitude magnitudeChar in
      let shifted :=
        if Ascii.eqb shiftDirOp "+" then Z.shiftr (wrap32 acc) m
        else wrap32 (Z.shiftl acc m) in
      let acc' :=
        if Ascii.eqb combineOp "+" then wrap32 (acc + shifted)
        else Z.lxor (wrap32 acc) shifted in
      (shifted, acc') :: mix_trace acc' rest
  | _ => []
  end.

(** Modelled from the spec: the accumulation loop (step 3); the second
    component counts the iterations the loop executes. *)
Fixpoint accumulate (units : list Z) (acc : Z) (iterations : nat) : Z * nat :=
  match units with
  | [] => (acc, iterations)
  | u :: rest =>
      accumulate rest (mix (wrap32 (acc + u)) "+-a^+6") (S iterations)
  end.

Definition loop_iterations (text : list Z) (pair : KeyPair) : nat :=
  snd (accumulate (expand text) (a pair) 0%nat).

(** Modelled from the spec: steps 4 to 7, from the accumulator after the
    loop to the first integer of the token. *)
Definition finish (acc : Z) (pair : KeyPair) : Z :=
  let acc := mix acc "+-3^+b+-f" in
  let acc := signed32 (Z.lxor acc (b pair)) in
  let acc := if acc <? 0 then Z.land acc 0x7FFFFFFF + 0x80000000 else acc in
  acc mod 1000000.

(** Modelled from the spec: the token transform [Derive(text, pair)] of
    section 4.2, steps 1 to 8. *)
Definition Derive (text : list Z) (pair : KeyPair) : string :=
  let acc := fst (accumulate (expand text) (a pair) 0%nat) in
  let acc := finish acc pair in
  decimal acc +:+ "." +:+ decimal (Z.lxor acc (a pair)).

(** *** The Key-Pair Store *)

(** Outcome of the GET of the host's root page. *)
Inductive FetchResult : Type :=
  | TransportFailure
  | HttpResponse (status : Z) (body : string).

Inductive KeyError : Type := KeyFetchError | KeyParseError.

Definition is_ident_char (c : ascii) : bool :=
  let n := nat_of_ascii c in
  ((97 <=? n) && (n <=? 122))%nat || ((65 <=? n) && (n <=? 90))%nat
  || is_digit c || (n =? 95)%nat.

Definition in_int64 (z : Z) : bool := (- 2 ^ 63 <=? z) && (z <? 2 ^ 63).

(** A run of decimal digits and what follows it; [None] when the run is
    empty. *)
Fixpoint read_digits (s : string) (acc : option Z) : option Z * string :=
  match s with
  | String c s' =>
      if is_digit c
      then read_digits s'
             (Some (10 * default 0 acc + (Z.of_nat (nat_of_ascii c) - 48)))
      else (acc, s)
  | EmptyString => (acc, s)
  end.

(** An integer: an optional minus sign and at least one digit, within the
    64-bit signed range. *)
Definition read_integer (s : string) : option (Z * string) :=
  let '(negative, s1) :=
    match s with
    | String c s' => if Ascii.eqb c "-" then (true, s') else (false, s)
    | EmptyString => (false, s)
    end in
  match read_digits s1 None with
  | (Some n, rest) =>
      let z := if negative then - n else n in
      if in_int64 z then Some (z, rest) else None
  | (None, _) => None
  end.

(** [<integer>.<integer>'], read just after the opening quote. *)
Definition read_pair (s : string) : option KeyPair :=
  match read_integer s with
  | Some (x, String c1 s1) =>
      if Ascii.eqb c1 "." then
        match read_integer s1 with
        | Some (y, String c2 _) =>
            if Ascii.eqb c2 "'" then Some {| a := x; b := y |} else None
        | _ => None
        end
      else None
  | _ => None
  end.

(** Modelled from the spec: the scan of the page body for an assignment of
    the form [key-name:'<integer>.<integer>']; [after_ident] tells that the
    previous character can end a key name. *)
Fixpoint scan (after_ident : bool) (body : string) : option KeyPair :=
  match body with
  | EmptyString => None
  | String c rest =>
      let here :=
        match rest with
        | String q s =>
            if after_ident && Ascii.eqb c ":" && Ascii.eqb q "'"
            then read_pair s else None
        | EmptyString => None
        end in
      match here with
      | Some p => Some p
      | None => scan (is_ident_char c) rest
      end
  end.

(** Any 2xx response is scanned; everything else yields no pair. *)
Definition scan_response (r : FetchResult) : option KeyPair :=
  match r with
  | TransportFailure => None
  | HttpResponse status body =>
      if (200 <=? status) && (status <? 300) then scan false body else None
  end.

(** Modelled from the spec: the synthetic pair of the fallback, the
    hour-granularity counter of the wall clock (Unix seconds) used as both
    [a] and [b]. *)
Definition synthetic_pair (now : Z) : KeyPair :=
  let hours := now / 3600 in {| a := hours; b := hours |}.

(** The cache: the current pair and the wall-clock time it was obtained. *)
Record KeyPairCache : Type := { pair : KeyPair; obtained : Z }.

(** The Store; [fetches] counts the page fetches issued so far. *)
Record Store : Type := { cache : option KeyPairCache; fetches : nat }.

Definition empty_store : Store := {| cache := None; fetches := 0 |}.

(** Modelled from the spec: [Current() -> (KeyPair, error)] of section 4.1.
    [page n] is the host's answer to the [n]-th fetch. A cached pair is
    returned without a fetch; otherwise the page is fetched once, a parsed
    pair is cached, and any failure falls back to the synthetic pair, which
    is not cached (only a successful fetch creates the cached pair). *)
Definition Current (page : nat -> FetchResult) (now : Z) (st : Store)
  : (KeyPair * option KeyError) * Store :=
  match cache st with
  | Some c => ((pair c, None), st)
  | None =>
      let st' := fun c => {| cache := c; fetches := S (fetches st) |} in
      match scan_response (page (fetches st)) with
      | Some p => ((p, None), st' (Some {| pair := p; obtained := now |}))
      | None => ((synthetic_pair now, None), st' None)
      end
  end.

(** Modelled from the spec: the explicit manual refresh a caller may
    request; the cached pair is dropped and the next [Current] fetches. *)
Definition Invalidate (st : Store) : Store :=
  {| cache := None; fetches := fetches st |}.

(** Modelled from the spec: [Derive(text) -> (token, error)] as the request
    builder sees it ([ta.do] in the sources): ask the Store for the current
    pair, then run the transform. *)
Definition do (page : nat -> FetchResult) (now : Z) (text : list Z)
  (st : Store) : (string * option KeyError) * Store :=
  match Current page now st with
  | ((_, Some e), st') => (("", Some e), st')
  | ((p, None), st') => ((Derive text p, None), st')
  end.

(** A caller's use of the subsystem over time. *)
Inductive Call : Type :=
  | CallDerive (now : Z) (text : list Z)
  | CallInvalidate.

Definition is_derive (c : Call) : bool :=
  match c with CallDerive _ _ => true | CallInvalidate => false end.

(** The texts of the [Derive] calls, in order. *)
Definition texts_of (calls : list Call) : list (list Z) :=
  flat_map (fun c => match c with
                     | CallDerive _ text => [text]
                     | CallInvalidate => []
                     end) calls.

(** Runs the calls in order; returns the tokens handed out and the Store. *)
Fixpoint run (page : nat -> FetchResult) (calls : list Call) (st : Store)
  : list string * Store :=
  match calls with
  | [] => ([], st)
  | CallDerive now text :: rest =>
      let '((tk, _), st1) := do page now text st in
      let '(tks, st2) := run page rest st1 in
      (tk :: tks, st2)
  | CallInvalidate :: rest => run page rest (Invalidate st)
  end.

End Token.

(** * Go's package [strings] on byte strings *)

Module gostrings.

Definition len (s : string) : Z := Z.of_nat (String.length s).

(** [strings.Index]: the byte offset of the first occurrence, or -1. *)
Definition Index (s substr : string) : Z :=
  match String.index 0 substr s with
  | Some n => Z.of_nat n
  | None => -1
  end.

Definition HasPrefix (s prefix : string) : bool := String.prefix prefix s.

(** The slice expression [s[i:j]]; [None] is the run-time panic Go raises
    unless [0 <= i <= j <= len(s)]. *)
Definition slice (s : string) (i j : Z) : option string :=
  if (0 <=? i) && (i <=? j) && (j <=? len s)
  then Some (substring (Z.to_nat i) (Z.to_nat (j - i)) s)
  else None.

(** [strings.ReplaceAll] for a non-empty [old]: occurrences are replaced
    from left to right without overlap; [skip] counts the bytes of the
    occurrence just replaced that are still to be passed over. *)
Fixpoint replace_from (skip : nat) (s old new : string) : string :=
  match s with
  | EmptyString => EmptyString
  | String c s' =>
      match skip with
      | S k => replace_from k s' old new
      | O =>
          if String.prefix old s
          then new +:+ replace_from (String.length old - 1) s' old new
          else String c (replace_from 0 s' old new)
      end
  end.

Definition ReplaceAll (s old new : string) : string := replace_from 0 s old new.

(** [strings.Split] for a non-empty separator; [cur] is the piece being
    collected. *)
Fixpoint split_from (skip : nat) (cur s sep : string) : list string :=
  match s with
  | EmptyString => [cur]
  | String c s' =>
      match skip with
      | S k => split_from k cur s' sep
      | O =>
          if String.prefix sep s
          then cur :: split_from (String.length sep - 1) EmptyString s' sep
          else split_from 0 (cur +:+ String c EmptyString) s' sep
      end
  end.

Definition Split (s sep : string) : list string :=
  split_from 0 EmptyString s sep.

End gostrings.

(** * The translator client, [translate.go] *)

(** [url.Values]: every key has the list of its values, in the order they
    were added. *)
Abbreviation Values := (gmap string (list string)).

(** A map of the language table. *)
Abbreviation LangMap := (gmap string string).

Inductive error : Type :=
  | TokenError (e : Token.KeyError)
  | UrlError (msg : string)
  | TransportError (msg : string)
  | ReadError (msg : string)
  | JsonError (msg : string)
  | Errorf (msg : string).

Record sentence : Type :=
  { Trans : string; Orig : string; Backend : Z }.

(** The parsed URL of a request, as far as the client reads or writes it:
    what stands before the query, the raw query, the fragment. *)
Record URL : Type :=
  { Base : string; RawQuery : string; Fragment : string }.

Record Request : Type :=
  { Method : string; Url : URL; Header : list (string * string) }.

(** A response: the status code and what [io.ReadAll] makes of the body. *)
Record Response : Type :=
  { StatusCode : Z; ReadAll : string + string }.

(** The [http.Client] as [New] configures it: the default [User-Agent]
    header of its transport, the proxy handed to [url.Parse], and the TLS
    verification switch. *)
Record Client : Type :=
  { UserAgentHeader : option string;
    Proxy : option string;
    InsecureSkipVerify : bool }.

Record Config : Type :=
  { ServiceUrls : list string; UserAgent : list string; ConfigProxy : string }.

(** Modelled from the spec: the value [Token(host, client)] returns; the
    acquirer keeps the host and the client it fetches the page with, its
    mutable part is the [Token.Store] threaded through the calls. *)
Record tokenAcquirer : Type :=
  { ta_host : string; ta_client : Client }.

Definition Token (host : string) (client : Client) : tokenAcquirer :=
  {| ta_host := host; ta_client := client |}.

Record Translator : Type :=
  { host : string; client : Client; ta : tokenAcquirer }.

Record Translated : Type :=
  { Src : string; Dest : string; Origin : string; Text : string }.

(** The functions of Go's standard library the client calls and this
    development does not look into. *)
Class GoLib : Type :=
  { (** [strings.ToLower] *)
    ToLower : string -> string;
    (** the Unicode scalar values of a string, as a [range] loop yields *)
    runes : string -> list Z;
    (** [url.ParseQuery], behind [URL.Query()] *)
    ParseQuery : string -> Values;
    (** [url.Values.Encode] *)
    Encode : Values -> string;
    (** the checks [url.Parse] makes on what stands before the query
        (scheme, user info, host, port, escapes of the path) and on the
        fragment: the message of the error, or [None] when it accepts *)
    url_check : string -> option string -> option string;
    (** the verb [%+v] on a response *)
    fmt_resp : Response -> string;
    float64 : Type;
    float64_zero : float64;
    (** [interface{}] and its nil *)
    any : Type;
    any_nil : any;
    (** the empty query string has no parameters *)
    ParseQuery_empty : ParseQuery EmptyString = ∅ }.

(** The package-level constants of the repository, declared in a file that
    is not among the sources. *)
Class Constants : Type :=
  { defaultLanguage : string;
    defaultUserAgent : string;
    defaultServiceUrls : list string }.

Section Client.

Context {lib : GoLib} {consts : Constants}.

Record LDResult : Type :=
  { Srclangs : list string;
    SrclangsConfidences : list float64;
    ExtendedSrclangs : list string }.

Record LDResponse : Type :=
  { LDSentences : list sentence;
    LDSrc : string;
    Spell : any;
    Confidence : float64;
    LdResult : LDResult }.

(** The zero value of [var detected LDResponse]. *)
Definition LDResponse_zero : LDResponse :=
  {| LDSentences := []; LDSrc := EmptyString; Spell := any_nil;
     Confidence := float64_zero;
     LdResult := {| Srclangs := []; SrclangsConfidences := [];
                    ExtendedSrclangs := [] |} |}.

(** What the outside world answers: the host page of the key-pair fetch,
    the translate endpoint, the documentation page of the languages, the
    JSON decoder on the bodies received, and the pseudo-random source after
    [rand.Seed]. *)
Record World : Type :=
  { (** the answer of a host to its [n]-th root page fetch *)
    page : string -> nat -> Token.FetchResult;
    (** [client.Do(req)]: a response or a transport error *)
    Do : Client -> Request -> Response + string;
    (** [json.Unmarshal(body, &sentences)] *)
    Unmarshal_sentences : string -> list sentence + string;
    (** [json.Unmarshal(body, &detected)]: the value left in [detected] and
        the error *)
    Unmarshal_LDResponse : string -> LDResponse * option string;
    (** [rand.Intn(n)] at the given draw after seeding with the given time,
        a number below [n] *)
    Intn : Z -> nat -> nat -> nat;
    Intn_lt : forall seed draw n, (0 < n)%nat -> (Intn seed draw n < n)%nat }.

Context (w : World).

(** [slice[rand.Intn(len(slice))]]; [None] is the panic of [rand.Intn] on
    an empty slice. *)
Definition randomChoose (seed : Z) (draw : nat) (slice : list string)
  : option string :=
  match slice with
  | [] => None
  | _ => slice !! Intn w seed draw (length slice)
  end.

Definition make_client (userAgent proxy : string) : Client :=
  {| UserAgentHeader := Some userAgent;
     Proxy := if gostrings.HasPrefix proxy "http" then Some proxy else None;
     InsecureSkipVerify := true |}.

(** [New] of [translate.go]; [seed] is [time.Now().Unix()]. *)
Definition New (seed : Z) (config : list Config) : option Translator :=
  let c :=
    match config with
    | c0 :: _ => c0
    | [] => {| ServiceUrls := []; UserAgent := []; ConfigProxy := EmptyString |}
    end in
  let urls :=
    match ServiceUrls c with [] => ["translate.google.com"] | l => l end in
  let agents :=
    match UserAgent c with [] => [defaultUserAgent] | l => l end in
  host ← randomChoose seed 0 urls;
  userAgent ← randomChoose seed 1 agents;
  let proxy := ConfigProxy c in
  let client := make_client userAgent proxy in
  Some {| host := host; client := client; ta := Token host client |}.

Definition buildParams (query src dest token : string) : LangMap :=
  list_to_map
    [("client", "gtx"); ("sl", src); ("tl", dest); ("hl", dest);
     ("tk", token); ("q", query)].

(** [url.Values.Add]: append the value to the key's list. *)
Definition Add (key value : string) (q : Values) : Values :=
  <[key := default [] (q !! key) ++ [value]]> q.

Definition has_ctl (s : string) : bool :=
  existsb (fun c => (nat_of_ascii c <? 32)%nat || (nat_of_ascii c =? 127)%nat)
    (list_ascii_of_string s).

(** [strings.Cut] at a single byte. *)
Fixpoint cut (sep : ascii) (s : string) : string * option string :=
  match s with
  | EmptyString => (EmptyString, None)
  | String c s' =>
      if Ascii.eqb c sep then (EmptyString, Some s')
      else let '(before, after) := cut sep s' in (String c before, after)
  end.

(** [url.Parse]: the fragment is cut at the first [#], a control byte in
    front of it is refused, the raw query is what follows the first [?],
    and what stands before the query goes, with the fragment, through the
    library's checks of the scheme, the authority and the escapes. *)
Definition url_Parse (rawURL : string) : URL + error :=
  let '(u, frag) := cut "#" rawURL in
  if has_ctl u then inr (UrlError "invalid control character in URL")
  else
    let '(rest, query) := cut "?" u in
    match url_check rest frag with
    | Some msg => inr (UrlError msg)
    | None =>
        inl {| Base := rest; RawQuery := default EmptyString query;
               Fragment := default EmptyString frag |}
    end.

Definition http_NewRequest (method url : string) : Request + error :=
  match url_Parse url with
  | inl u => inl {| Method := method; Url := u; Header := [] |}
  | inr e => inr e
  end.

(** No byte of [s] is [sep]. *)
Definition free_of (sep : ascii) (s : string) : bool :=
  forallb (fun c => negb (Ascii.eqb c sep)) (list_ascii_of_string s).

(** A host name free of control bytes and of the two bytes that end the
    path of a URL. *)
Definition plain_host (hostname : string) : bool :=
  forallb
    (fun c => negb ((nat_of_ascii c <? 32)%nat || (nat_of_ascii c =? 127)%nat)
              && negb (Ascii.eqb c "?") && negb (Ascii.eqb c "#"))
    (list_ascii_of_string hostname).

Definition tranUrl (hostname : string) : string :=
  "https://" +:+ hostname +:+ "/translate_a/single".

(** The query of [getReq] once the token is known. The keys of [params]
    are distinct, so the order in which the [range] loop adds them does not
    show in the result. *)
Definition add_params (q : Values) (origin src dest tk : string) : Values :=
  let params := buildParams origin src dest tk in
  let q := map_fold (fun i v q => Add i v q) q params in
  let q := Add "dt" "t" q in
  let q := Add "dt" "bd" q in
  let q := Add "dj" "1" q in
  Add "source" "popup" q.

(** [getReq]; [now] is the wall clock the token acquirer reads, [st] its
    Store, and the page it fetches is the root page of its own host. *)
Definition getReq (a : Translator) (cl : Client) (now : Z)
  (origin src dest : string) (st : Token.Store)
  : (Request + error) * Token.Store :=
  match Token.do (page w (ta_host (ta a))) now (runes origin) st with
  | ((_, Some e), st') => (inr (TokenError e), st')
  | ((tk, None), st') =>
      match http_NewRequest "GET" (tranUrl (host a)) with
      | inr e => (inr e, st')
      | inl req =>
          let q := ParseQuery (RawQuery (Url req)) in
          let q := add_params q origin src dest tk in
          let u := {| Base := Base (Url req); RawQuery := Encode q;
                      Fragment := Fragment (Url req) |} in
          (inl {| Method := Method req; Url := u; Header := Header req |},
           st')
      end
  end.

Definition status_error (resp : Response) : error :=
  Errorf ("expected statusCode 200, got: " +:+ decimal (StatusCode resp)
          +:+ "; resp: " +:+ fmt_resp resp).

(** What [translate] does with the outcome of [client.Do(req)]. *)
Definition translate_response (r : Response + string)
  : string * option error :=
  match r with
  | inr msg => (EmptyString, Some (TransportError msg))
  | inl resp =>
      if StatusCode resp =? 200 then
        match ReadAll resp with
        | inr msg => (EmptyString, Some (ReadError msg))
        | inl body =>
            match Unmarshal_sentences w body with
            | inr msg => (EmptyString, Some (JsonError msg))
            | inl sentences =>
                (fold_left (fun translated s => translated +:+ Trans s)
                   sentences EmptyString, None)
            end
        end
      else (EmptyString, Some (status_error resp))
  end.

Definition translate (a : Translator) (cl : Client) (now : Z)
  (origin src dest : string) (st : Token.Store)
  : (string * option error) * Token.Store :=
  match getReq a cl now origin src dest st with
  | (inr err, st') => ((EmptyString, Some err), st')
  | (inl req, st') => (translate_response (Do w cl req), st')
  end.

Definition Translate (a : Translator) (now : Z) (origin src dest : string)
  (st : Token.Store) : (option Translated * option error) * Token.Store :=
  let src := ToLower src in
  let dest := ToLower dest in
  match translate a (client a) now origin src dest st with
  | ((_, Some err), st') => ((None, Some err), st')
  | ((text, None), st') =>
      ((Some {| Src := src; Dest := dest; Origin := origin; Text := text |},
        None), st')
  end.

(** What [detect] does with the outcome of [client.Do(req)]. *)
Definition detect_response (r : Response + string)
  : LDResponse * option error :=
  let detected := LDResponse_zero in
  match r with
  | inr msg => (detected, Some (TransportError msg))
  | inl resp =>
      if negb (StatusCode resp =? 200)
      then (detected, Some (status_error resp))
      else
        match ReadAll resp with
        | inr msg => (detected, Some (ReadError msg))
        | inl body =>
            match Unmarshal_LDResponse w body with
            | (detected, Some msg) => (detected, Some (JsonError msg))
            | (detected, None) => (detected, None)
            end
        end
  end.

Definition detect (a : Translator) (cl : Client) (now : Z)
  (origin dest : string) (st : Token.Store)
  : (LDResponse * option error) * Token.Store :=
  match getReq a cl now origin "auto" dest st with
  | (inr err, st') => ((LDResponse_zero, Some err), st')
  | (inl req, st') => (detect_response (Do w cl req), st')
  end.

Definition DetectLanguage (a : Translator) (now : Z) (origin dest : string)
  (st : Token.Store) : (LDResponse * option error) * Token.Store :=
  let dest := ToLower dest in
  detect a (client a) now origin dest st.

(** ** The language table *)

(** Go maps are references: the package-level variable [languages] holds a
    location, and the maps live in a heap. A location the heap does not
    hold is a nil map. *)
Record Globals : Type :=
  { heap : gmap nat LangMap; languages : nat }.

Definition deref (g : Globals) (l : nat) : LangMap :=
  default ∅ (heap g !! l).

(** The first entry, in the order the [range] loop visits them, whose key
    or value is [lang]. *)
Fixpoint range_find (lang : string) (entries : list (string * string))
  : option string :=
  match entries with
  | [] => None
  | (key, val) :: rest =>
      if String.eqb key lang || String.eqb val lang then Some key
      else range_find lang rest
  end.

(** [GetValidLanguageKey]; [visit] lists the entries of a map in the order
    this call's [range] loop visits them, which Go leaves open. *)
Definition GetValidLanguageKey (visit : LangMap -> list (string * string))
  (g : Globals) (lang : string) : string * option error :=
  let lang := ToLower lang in
  match range_find lang (visit (deref g (languages g))) with
  | Some key => (key, None)
  | None =>
      (defaultLanguage, Some (Errorf ("invalid language '" +:+ lang +:+ "'")))
  end.

(** [GetAvaliableLanguages] returns the map itself, that is its location. *)
Definition GetAvaliableLanguages (g : Globals) : nat := languages g.

Definition langs_request : Request :=
  {| Method := "GET";
     Url := {| Base := "https://cloud.google.com/translate/docs/languages";
               RawQuery := EmptyString; Fragment := EmptyString |};
     Header := [("Cookie", "_ga_devsite=GA1.3.3578724760.1690567683")] |}.

(** The client [&http.Client{}]. *)
Definition plain_client : Client :=
  {| UserAgentHeader := None; Proxy := None; InsecureSkipVerify := false |}.

(** The rows of the first table body of the page; [None] is the panic of a
    slice expression out of range. *)
Definition table_rows (bodyStr : string) : option (list string) :=
  table ← gostrings.slice bodyStr (gostrings.Index bodyStr "<table>")
             (gostrings.Index bodyStr "</table>");
  tbody ← gostrings.slice table (gostrings.Index table "<tbody>")
             (gostrings.Index table "</tbody>");
  let tbody := gostrings.ReplaceAll tbody "<tbody>" EmptyString in
  let tbody := gostrings.ReplaceAll tbody "</tbody>" EmptyString in
  Some (gostrings.Split tbody "<tr>").

(** The body of the loop over the rows, up to the assignment: [None] is a
    panic, [Some None] a [continue], [Some (Some (shortname, fullname))] the
    entry to assign. *)
Definition row_entry (tr : string) : option (option (string * string)) :=
  let ini := gostrings.Index tr "<td>" in
  let end_ := gostrings.Index tr "</td>" in
  if (ini <? 0) || (end_ <? 0) then Some None
  else
    fullname ← gostrings.slice tr (ini + 4) end_;
    if gostrings.len fullname =? 0 then Some None
    else
      let end_ := gostrings.Index tr "</code>" in
      let ini := end_ - 2 in
      shortname ← gostrings.slice tr ini end_;
      if gostrings.len shortname =? 0 then Some None
      else Some (Some (ToLower shortname, ToLower fullname)).

(** [m[k] = v] through the reference [l]; assigning into a nil map
    panics. *)
Definition map_assign (l : nat) (k v : string) (h : gmap nat LangMap)
  : option (gmap nat LangMap) :=
  m ← h !! l; Some (<[l := <[k := v]> m]> h).

Fixpoint rows_loop (trs : list string) (httpLangs : nat)
  (h : gmap nat LangMap) : option (gmap nat LangMap) :=
  match trs with
  | [] => Some h
  | tr :: rest =>
      e ← row_entry tr;
      match e with
      | None => rows_loop rest httpLangs h
      | Some (shortname, fullname) =>
          h' ← map_assign httpLangs shortname fullname h;
          rows_loop rest httpLangs h'
      end
  end.

(** [GetAvaliableLanguagesHTTP]; the result is the returned map reference
    and error with the globals afterwards, or [None] for a panic. The
    request is built from constants, so [http.NewRequest] does not fail. *)
Definition GetAvaliableLanguagesHTTP (overwriteDefaultLanguages : bool)
  (g : Globals) : option ((nat * option error) * Globals) :=
  let httpLangs := languages g in
  match Do w plain_client langs_request with
  | inr msg => Some ((httpLangs, Some (TransportError msg)), g)
  | inl res =>
      match ReadAll res with
      | inr msg => Some ((httpLangs, Some (ReadError msg)), g)
      | inl bodyStr =>
          trs ← table_rows bodyStr;
          h ← rows_loop trs httpLangs (heap g);
          let g' :=
            {| heap := h;
               languages := if overwriteDefaultLanguages then httpLangs
                            else languages g |} in
          Some ((httpLangs, None), g')
      end
  end.

End Client.

(** * The second copy of the client, [unnamed/part_002] *)

Module Part002.

Section New.

Context {lib : GoLib} {consts : Constants} (w : World).

(** [New] of [unnamed/part_002]: [c] is declared and never assigned from
    [config]. *)
Definition New (seed : Z) (config : list Config) : option Translator :=
  let c :=
    {| ServiceUrls := []; UserAgent := []; ConfigProxy := EmptyString |} in
  let urls :=
    match ServiceUrls c with [] => defaultServiceUrls | l => l end in
  let agents :=
    match UserAgent c with [] => [defaultUserAgent] | l => l end in
  host ← randomChoose w seed 0 urls;
  userAgent ← randomChoose w seed 1 agents;
  let proxy := ConfigProxy c in
  let client := make_client userAgent proxy in
  Some {| host := host; client := client; ta := Token host client |}.

(** [GetValidLanguageKey] of [unnamed/part_002], a package-level function
    with the body of the method of [translate.go]. *)
Definition GetValidLanguageKey (visit : LangMap -> list (string * string))
  (g : Globals) (lang : string) : string * option error :=
  let lang := ToLower lang in
  match range_find lang (visit (deref g (languages g))) with
  | Some key => (key, None)
  | None =>
      (defaultLanguage, Some (Errorf ("invalid language '" +:+ lang +:+ "'")))
  end.

End New.

End Part002.

(** * The rest of the client *)

Section Transport.

(** [http.RoundTripper]: from a request to a response or an error. *)
Definition RoundTripper : Type := Request -> Response + string.

Record addHeaderTransport : Type :=
  { T : RoundTripper; defaultHeaders : LangMap }.

(** [req.Header.Add(k, v)]; the header is kept as the log of its [Add]
    calls, as in [langs_request]. *)
Definition Header_Add (k v : string) (req : Request) : Request :=
  {| Method := Method req; Url := Url req; Header := Header req ++ [(k, v)] |}.

(** [RoundTrip]; [visit] lists the default headers in the order this call's
    [range] loop visits them. *)
Definition RoundTrip (visit : LangMap -> list (string * string))
  (adt : addHeaderTransport) (req : Request) : Response + string :=
  T adt
    (fold_left (fun r kv => Header_Add (fst kv) (snd kv) r)
       (visit (defaultHeaders adt)) req).

(** [newAddHeaderTransport]; [None] is the nil round tripper. *)
Definition newAddHeaderTransport (DefaultTransport : RoundTripper)
  (T : option RoundTripper) (defaultHeaders : LangMap) : addHeaderTransport :=
  {| T := default DefaultTransport T; defaultHeaders := defaultHeaders |}.

End Transport.

Section Rows.

Context {lib : GoLib} {consts : Constants}.

Definition GetDefaultServiceUrls : list string := defaultServiceUrls.

(** The entries the loop of [GetAvaliableLanguagesHTTP] assigns, in the
    order of the rows; [None] when the body of the loop panics at a row. *)
Fixpoint parsed_entries (trs : list string)
  : option (list (string * string)) :=
  match trs with
  | [] => Some []
  | tr :: rest =>
      e ← row_entry tr;
      es ← parsed_entries rest;
      Some (match e with Some kv => kv :: es | None => es end)
  end.

(** The assignment [m[k] = v] on the map itself. *)
Definition assign_entry (m : LangMap) (kv : string * string) : LangMap :=
  <[fst kv := snd kv]> m.

End Rows.

(** * A concrete library, constants and world to run the model on *)

Module Sample.

Definition lower_ascii (c : ascii) : ascii :=
  let n := nat_of_ascii c in
  if (65 <=? n)%nat && (n <=? 90)%nat then ascii_of_nat (n + 32) else c.

Fixpoint lower (s : string) : string :=
  match s with
  | EmptyString => EmptyString
  | String c s' => String (lower_ascii c) (lower s')
  end.

(** ASCII letters are lowered, ASCII bytes are their own scalar values, the
    query parser knows the empty query only, and the URL checks refuse a
    space. *)
#[export] Instance lib : GoLib :=
  {| ToLower := lower;
     runes := fun s => map (fun c => Z.of_nat (nat_of_ascii c))
                         (list_ascii_of_string s);
     ParseQuery := fun _ => ∅;
     url_check := fun rest _ =>
       if free_of " " rest then None
       else Some "invalid character in host name";
     Encode := fun q =>
       foldr (fun kv acc => kv.1 +:+ "=" +:+ foldr (fun v r => v +:+ "," +:+ r) "" kv.2 +:+ "&" +:+ acc)
         "" (map_to_list q);
     fmt_resp := fun r => decimal (StatusCode r);
     float64 := Z;
     float64_zero := 0;
     any := unit;
     any_nil := tt;
     ParseQuery_empty := eq_refl |}.

#[export] Instance consts : Constants :=
  {| defaultLanguage := "auto";
     defaultUserAgent := "Mozilla/5.0";
     defaultServiceUrls := ["translate.google.com"; "translate.google.cn"] |}.

Definition langs_body : string :=
  "<html><table><thead></thead><tbody><tr><td>Klingon</td><td><code>TL</code></td></tr></tbody></table></html>".

(** A world whose host page carries the pair (1, 2), whose translate
    endpoint answers 503, and whose documentation page lists one
    language. *)
Definition world : World :=
  {| page := fun _ _ => Token.HttpResponse 200 "tkk:'1.2'";
     Do := fun _ req =>
       if String.eqb (Base (Url req))
            "https://cloud.google.com/translate/docs/languages"
       then inl {| StatusCode := 200; ReadAll := inl langs_body |}
       else inl {| StatusCode := 503; ReadAll := inl EmptyString |};
     Unmarshal_sentences := fun _ => inl [];
     Unmarshal_LDResponse := fun _ => (LDResponse_zero, None);
     Intn := fun _ _ _ => 0%nat;
     Intn_lt := fun _ _ _ H => H |}.

(** The same world with the host page out of order. *)
Definition world_down : World :=
  {| page := fun _ _ => Token.HttpResponse 404 "tkk:'1.2'";
     Do := Do world;
     Unmarshal_sentences := Unmarshal_sentences world;
     Unmarshal_LDResponse := Unmarshal_LDResponse world;
     Intn := Intn world;
     Intn_lt := Intn_lt world |}.

Definition globals : Globals :=
  {| heap := {[ 0%nat := {[ "en" := "english"; "pt" := "portuguese" ]} ]};
     languages := 0%nat |}.

(** The configuration of the README's proxy example. *)
Definition proxy_config : Config :=
  {| ServiceUrls := []; UserAgent := [];
     ConfigProxy := "http://PROXY_HOST:PROXY_PORT" |}.

Definition translator : Translator :=
  {| host := "translate.google.com";
     client := make_client "Mozilla/5.0" EmptyString;
     ta := Token "translate.google.com" (make_client "Mozilla/5.0" EmptyString) |}.

End Sample.

(** Further cases to run the model on. *)

Module Cases.

(** The sample world with a translate endpoint that answers 200 with two
    sentences, and a decoder of detections that fails. *)
Definition world_ok : @World Sample.lib :=
  {| page := page Sample.world;
     Do := fun _ req =>
       if String.eqb (Base (Url req))
            "https://cloud.google.com/translate/docs/languages"
       then inl {| StatusCode := 404; ReadAll := inl "<html></html>" |}
       else inl {| StatusCode := 200; ReadAll := inl "{}" |};
     Unmarshal_sentences := fun _ =>
       inl [ {| Trans := "Hello "; Orig := "Ola "; Backend := 1 |};
             {| Trans := "World!"; Orig := "Mundo!"; Backend := 1 |} ];
     Unmarshal_LDResponse := fun _ =>
       (@LDResponse_zero Sample.lib, Some "unexpected end of JSON input");
     Intn := Intn Sample.world;
     Intn_lt := Intn_lt Sample.world |}.

(** A translator whose service URL carries a query. *)
Definition translator_with_query : Translator :=
  {| host := "translate.google.com/?x=1&";
     client := client Sample.translator;
     ta := ta Sample.translator |}.

(** A translator whose service URL holds a tab. *)
Definition translator_with_tab : Translator :=
  {| host := String (ascii_of_nat 9) "translate.google.com";
     client := client Sample.translator;
     ta := ta Sample.translator |}.

(** The client of the sample translator, and the Store after the first
    fetch of the sample host page. *)
Definition cl : Client := client Sample.translator.

Definition st1 : Token.Store :=
  {| Token.cache := Some {| Token.pair := {| Token.a := 1; Token.b := 2 |};
                            Token.obtained := 0 |};
     Token.fetches := 1 |}.

(** A table in which "pt" is a key and also the value of another key. *)
Definition ambiguous_globals : Globals :=
  {| heap := {[ 0%nat := {[ "pt" := "portuguese"; "xx" := "pt" ]} ]};
     languages := 0%nat |}.

End Cases.

(** * Properties *)

(** ** The string functions on small inputs *)

Example Index_found : gostrings.Index "ab<td>cd<td>" "<td>" = 2.
Proof. reflexivity. Qed.

Example Index_absent : gostrings.Index "abc" "</td>" = -1.
Proof. reflexivity. Qed.

Example slice_inside : gostrings.slice "abcdef" 2 4 = Some "cd".
Proof. reflexivity. Qed.

Example slice_panics : gostrings.slice "abcdef" (-1) 4 = None.
Proof. reflexivity. Qed.

Example ReplaceAll_twice :
  gostrings.ReplaceAll "x<tbody>y<tbody>" "<tbody>" "" = "xy".
Proof. reflexivity. Qed.

Example Split_rows :
  gostrings.Split "<tr>a</tr><tr>b</tr>" "<tr>" = [""; "a</tr>"; "b</tr>"].
Proof. reflexivity. Qed.

Example Split_no_separator : gostrings.Split "abc" "<tr>" = ["abc"].
Proof. reflexivity. Qed.

Example scan_finds_pair :
  Token.scan_response
    (Token.HttpResponse 200 "var x = {tkk:'406398.2087938574', y:'1.'}")
  = Some {| Token.a := 406398; Token.b := 2087938574 |}.
Proof. reflexivity. Qed.

Example scan_refuses_status :
  Token.scan_response (Token.HttpResponse 404 "tkk:'406398.2087938574'")
  = None.
Proof. reflexivity. Qed.

Example scan_refuses_overflow :
  Token.scan_response
    (Token.HttpResponse 200 "tkk:'406398.99999999999999999999'") = None.
Proof. reflexivity. Qed.

(** ** Facts about decimal rendering and the token pattern *)

Section Decimal.

Lemma frac_part_uint (d : Decimal.uint) (seen : bool) :
  frac_part seen (NilEmpty.string_of_uint d) = seen || nonnil d.
Proof.
  revert seen; induction d; intros seen; cbn [NilEmpty.string_of_uint frac_part];
    try rewrite IHd; now destruct seen.
Qed.

Lemma append_cons (c : ascii) (s t : string) :
  String c s +:+ t = String c (s +:+ t).
Proof. reflexivity. Qed.

Lemma int_part_uint (d : Decimal.uint) (seen : bool) (r : string) :
  int_part seen (NilEmpty.string_of_uint d +:+ String "." r)
  = (seen || nonnil d) && frac_part false r.
Proof.
  revert seen; induction d; intros seen;
    cbn [NilEmpty.string_of_uint]; [now destruct seen|..].
  all: rewrite append_cons; cbn [int_part]; match goal with
       | |- context [is_digit ?c] => change (is_digit c) with true
       end; cbn iota; rewrite IHd; now destruct seen.
Qed.

Lemma NilZero_nonnil (d : Decimal.uint) :
  d <> Decimal.Nil -> NilZero.string_of_uint d = NilEmpty.string_of_uint d.
Proof. now destruct d. Qed.

Lemma decimal_nonneg (z : Z) :
  0 <= z ->
  exists d, nonnil d = true /\ decimal z = NilEmpty.string_of_uint d.
Proof.
  intros Hz. destruct z as [|p|p]; [| |lia].
  - exists (Decimal.D0 Decimal.Nil). split; reflexivity.
  - exists (Pos.to_uint p). pose proof (Unsigned.to_uint_nonnil p) as Hn.
    split; [now destruct (Pos.to_uint p)|].
    unfold decimal. cbn [Z.to_int NilZero.string_of_int].
    now apply NilZero_nonnil.
Qed.

Lemma decimal_neg (z : Z) :
  z < 0 -> exists s, decimal z = String "-" s.
Proof.
  intros Hz. destruct z as [|p|p]; [lia|lia|].
  eexists. reflexivity.
Qed.

(** A token made of two rendered integers matches the pattern exactly when
    the second one carries no sign, the first being non-negative. *)
Lemma token_pattern_decimal (x y : Z) :
  0 <= x ->
  token_pattern (decimal x +:+ "." +:+ decimal y) = (0 <=? y).
Proof.
  intros Hx. destruct (decimal_nonneg x Hx) as (d & Hd & ->).
  unfold token_pattern.
  change ("." +:+ decimal y) with (String "." (decimal y)).
  rewrite int_part_uint, Hd. cbn [orb andb].
  destruct (Z.leb_spec 0 y) as [Hy|Hy].
  - destruct (decimal_nonneg y Hy) as (e & He & ->).
    now rewrite frac_part_uint, He.
  - destruct (decimal_neg y Hy) as (s & ->). reflexivity.
Qed.

End Decimal.

(** ** The token transform *)

Section Transform.

Import Token.

Lemma last_cons_default {A} (l : list A) :
  forall x d d', List.last (x :: l) d = List.last (x :: l) d'.
Proof.
  induction l as [|y l IH]; intros x d d'; [reflexivity|].
  change (List.last (y :: l) d = List.last (y :: l) d'). apply IH.
Qed.

Lemma mix_trace_last_bounded (n : nat) :
  forall program acc,
    (length program <= n)%nat ->
    mix_ops acc program = List.last (map snd (mix_trace acc program)) acc.
Proof.
  induction n as [|n IH]; intros program acc Hn;
    destruct program as [|c0 [|c1 [|c2 rest]]]; try reflexivity;
    cbn [length] in Hn; [lia|].
  cbn [mix_ops mix_trace map snd].
  rewrite (IH rest) by lia.
  set (tr := mix_trace _ rest). destruct tr as [|x tr']; [reflexivity|].
  cbn [map]. symmetry.
  transitivity (List.last (snd x :: map snd tr') acc);
    [reflexivity|apply last_cons_default].
Qed.

(** The accumulator [mix] returns is the last one of the trace. *)
Lemma mix_trace_last (program : list ascii) (acc : Z) :
  mix_ops acc program = List.last (map snd (mix_trace acc program)) acc.
Proof. now apply (mix_trace_last_bounded (length program)). Qed.







Lemma finish_range (acc : Z) (p : KeyPair) : 0 <= finish acc p < 1000000.
Proof. unfold finish. apply Z.mod_pos_bound. lia. Qed.

(** C4: for the key pair (0, 0) and the empty text the loop runs zero
    times, every shifted value and every accumulator of the post-loop mix is
    0, steps 5 to 7 keep 0, and [Derive] returns exactly the string "0.0". *)
Theorem Derive_zero_vector :
  let zero := {| a := 0; b := 0 |} in
  loop_iterations [] zero = 0%nat
  /\ mix_trace 0 (list_ascii_of_string "+-3^+b+-f") = [(0, 0); (0, 0); (0, 0)]
  /\ mix 0 "+-3^+b+-f" = 0
  /\ finish 0 zero = 0
  /\ Derive [] zero = decimal 0 +:+ "." +:+ decimal (Z.lxor 0 0)
  /\ Derive [] zero = "0.0".
Proof. cbv zeta. repeat split; vm_compute; reflexivity. Qed.

(** C5, counterexample: with the key pair (-1, 0) and the empty text the
    token is "132296.-132297"; its second integer carries a minus sign and
    the token does not match [^\d+\.\d+$]. *)
Lemma Derive_negative_seed :
  Derive [] {| a := -1; b := 0 |} = "132296.-132297"
  /\ token_pattern (Derive [] {| a := -1; b := 0 |}) = false.
Proof. split; vm_compute; reflexivity. Qed.

(** C5, amended: for every text and every key pair the token is the decimal
    of an integer [x] of [0, 1_000_000), a dot, and the decimal of [x]
    XORed with [a]; it matches [^\d+\.\d+$] exactly when [a] is not
    negative. *)
Theorem Derive_format (text : list Z) (p : KeyPair) :
  exists x,
    0 <= x < 1000000
    /\ Derive text p = decimal x +:+ "." +:+ decimal (Z.lxor x (a p))
    /\ token_pattern (Derive text p) = (0 <=? a p).
Proof.
  unfold Derive.
  set (x := finish _ p). pose proof (finish_range (fst (accumulate (expand text) (a p) 0%nat)) p) as Hx.
  fold x in Hx. exists x. split; [exact Hx|]. split; [reflexivity|].
  rewrite token_pattern_decimal by lia.
  destruct (Z.leb_spec 0 (a p)) as [Ha|Ha].
  - apply Z.leb_le. apply Z.lxor_nonneg. lia.
  - apply Z.leb_gt. pose proof (Z.lxor_nonneg x (a p)) as Hn. lia.
Qed.



End Transform.

(** ** The Key-Pair Store *)

Section KeyPairStore.

Import Token.

Variable page : nat -> FetchResult.

Lemma scan_response_non2xx (status : Z) (body : string) :
  ~ (200 <= status < 300) -> scan_response (HttpResponse status body) = None.
Proof.
  intros H. cbn [scan_response].
  destruct (Z.leb_spec 200 status), (Z.ltb_spec status 300);
    cbn [andb]; solve [reflexivity | lia].
Qed.

Lemma Current_fallback (now : Z) (st : Store) :
  cache st = None ->
  scan_response (page (fetches st)) = None ->
  Current page now st
  = ((synthetic_pair now, None), {| cache := None; fetches := S (fetches st) |}).
Proof. intros Hc Hs. unfold Current. now rewrite Hc, Hs. Qed.

Lemma Current_no_error (now : Z) (st : Store) :
  snd (fst (Current page now st)) = None.
Proof.
  unfold Current. destruct (cache st); [reflexivity|].
  now destruct (scan_response _).
Qed.

Lemma do_no_error (now : Z) (text : list Z) (st : Store) :
  snd (fst (do page now text st)) = None.
Proof.
  unfold do. pose proof (Current_no_error now st) as H.
  destruct (Current page now st) as [[p e] st']. cbn in H. now subst e.
Qed.

Lemma synthetic_pair_valid (now : Z) :
  int64 now -> valid_pair (synthetic_pair now).
Proof.
  unfold int64. intros H.
  assert (- 2 ^ 63 <= now / 3600 < 2 ^ 63) as Hh.
  { split.
    - apply Z.div_le_lower_bound; lia.
    - apply Z.div_lt_upper_bound; lia. }
  unfold valid_pair, synthetic_pair, int64. cbn. tauto.
Qed.

Lemma do_cached (now : Z) (text : list Z) (st : Store) (c : KeyPairCache) :
  cache st = Some c ->
  do page now text st = ((Derive text (pair c), None), st).
Proof. intros Hc. unfold do, Current. now rewrite Hc. Qed.

Lemma do_first_fetch (now : Z) (text : list Z) (st : Store) (p : KeyPair) :
  cache st = None ->
  scan_response (page (fetches st)) = Some p ->
  do page now text st
  = ((Derive text p, None),
     {| cache := Some {| pair := p; obtained := now |};
        fetches := S (fetches st) |}).
Proof. intros Hc Hs. unfold do, Current. now rewrite Hc, Hs. Qed.

Lemma run_cached (calls : list Call) :
  forall (st : Store) (c : KeyPairCache),
    cache st = Some c ->
    forallb is_derive calls = true ->
    run page calls st
    = (map (fun text => Derive text (pair c)) (texts_of calls), st).
Proof.
  induction calls as [|call rest IH]; intros st c Hc Hall; [reflexivity|].
  destruct call as [now text|]; [|discriminate].
  cbn [forallb is_derive andb] in Hall.
  cbn [run]. rewrite (do_cached now text st c Hc), (IH st c Hc Hall).
  reflexivity.
Qed.

(** C7: a run of [Derive] calls with no invalidation, started on a Store
    that holds a cached pair, issues no page fetch and leaves the Store as
    it was, every token being derived from the cached pair; started on an
    empty Store whose first fetch parses, it issues that one fetch and
    derives every token of the run from the parsed pair. *)
Theorem cached_pair_reused (calls : list Call) :
  forallb is_derive calls = true ->
  (forall st c,
      cache st = Some c ->
      run page calls st
      = (map (fun text => Derive text (pair c)) (texts_of calls), st)
      /\ fetches (snd (run page calls st)) = fetches st)
  /\ (forall st p now text,
         cache st = None ->
         scan_response (page (fetches st)) = Some p ->
         run page (CallDerive now text :: calls) st
         = (map (fun text => Derive text p) (text :: texts_of calls),
            {| cache := Some {| pair := p; obtained := now |};
               fetches := S (fetches st) |})).
Proof.
  intros Hall. split.
  - intros st c Hc. rewrite (run_cached calls st c Hc Hall). now split.
  - intros st p now text Hc Hs. cbn [run].
    rewrite (do_first_fetch now text st p Hc Hs).
    set (st1 := {| cache := Some {| pair := p; obtained := now |};
                   fetches := S (fetches st) |}).
    now rewrite (run_cached calls st1 {| pair := p; obtained := now |}
                   eq_refl Hall).
Qed.

End KeyPairStore.

(** Three [Derive] calls on an empty Store whose host page carries the pair
    (1, 2): one fetch, three tokens from that pair. *)
Lemma cached_pair_reused_witness :
  let page := fun _ : nat => Token.HttpResponse 200 "tkk:'1.2'" in
  let calls := [Token.CallDerive 10 [104; 105]; Token.CallDerive 7200 []] in
  forallb Token.is_derive calls = true
  /\ Token.run page (Token.CallDerive 0 [33] :: calls) Token.empty_store
     = (["523851.523850"; "563745.563744"; "294923.294922"],
        {| Token.cache :=
             Some {| Token.pair := {| Token.a := 1; Token.b := 2 |};
                     Token.obtained := 0 |};
           Token.fetches := 1 |}).
Proof.
  intros page calls. split; [reflexivity|].
  destruct (cached_pair_reused page calls eq_refl) as [_ H].
  rewrite (H Token.empty_store {| Token.a := 1; Token.b := 2 |} 0 [33]
             eq_refl eq_refl).
  vm_compute. reflexivity.
Defined.

(** ** The request builder *)

Section RequestBuilder.

Context {lib : GoLib} {consts : Constants} (w : World).

Lemma free_of_app (sep : ascii) (s t : string) :
  free_of sep (s +:+ t) = free_of sep s && free_of sep t.
Proof.
  unfold free_of. induction s as [|c s IH]; [reflexivity|].
  rewrite append_cons. cbn [list_ascii_of_string forallb].
  rewrite IH. now rewrite andb_assoc.
Qed.

Lemma has_ctl_app (s t : string) :
  has_ctl (s +:+ t) = has_ctl s || has_ctl t.
Proof.
  unfold has_ctl. induction s as [|c s IH]; [reflexivity|].
  rewrite append_cons. cbn [list_ascii_of_string existsb].
  rewrite IH. now rewrite orb_assoc.
Qed.

Lemma cut_free (sep : ascii) (s : string) :
  free_of sep s = true -> cut sep s = (s, None).
Proof.
  unfold free_of. induction s as [|c s IH]; [reflexivity|].
  cbn [list_ascii_of_string forallb cut]. intros H.
  apply andb_prop in H as [Hc Hs]. apply negb_true_iff in Hc.
  rewrite Hc, (IH Hs). reflexivity.
Qed.

Lemma plain_host_parts (h : string) :
  plain_host h = true ->
  has_ctl h = false /\ free_of "?" h = true /\ free_of "#" h = true.
Proof.
  unfold plain_host, has_ctl, free_of.
  induction (list_ascii_of_string h) as [|c l IH]; [now repeat split|].
  cbn [forallb existsb]. intros H.
  apply andb_prop in H as [Hc Hl]. destruct (IH Hl) as (I1 & I2 & I3).
  apply andb_prop in Hc as [Hc H3]. apply andb_prop in Hc as [H1 H2].
  apply negb_true_iff in H1. rewrite H1, H2, H3, I1, I2, I3.
  now repeat split.
Qed.

(** On a plain host, a request [http.NewRequest] returns for the
    translate URL has that URL in front of an empty query and no
    fragment. *)
Lemma NewRequest_tranUrl (h : string) (req0 : Request) :
  plain_host h = true ->
  http_NewRequest "GET" (tranUrl h) = inl req0 ->
  req0 = {| Method := "GET";
            Url := {| Base := tranUrl h; RawQuery := EmptyString;
                      Fragment := EmptyString |};
            Header := [] |}.
Proof.
  intros Hh. destruct (plain_host_parts h Hh) as (Hctl & Hq & Hf).
  unfold http_NewRequest, url_Parse.
  assert (free_of "#" (tranUrl h) = true) as F1.
  { unfold tranUrl. now rewrite !free_of_app, Hf. }
  assert (free_of "?" (tranUrl h) = true) as F2.
  { unfold tranUrl. now rewrite !free_of_app, Hq. }
  assert (has_ctl (tranUrl h) = false) as F3.
  { unfold tranUrl. now rewrite !has_ctl_app, Hctl. }
  rewrite (cut_free _ _ F1), F3, (cut_free _ _ F2).
  destruct (url_check (tranUrl h) None); [discriminate|].
  now intros [= <-].
Qed.

(** The query [getReq] builds on an empty one. *)
Lemma add_params_empty (origin src dest tk : string) :
  add_params ∅ origin src dest tk
  = list_to_map
      [("client", ["gtx"]); ("sl", [src]); ("tl", [dest]); ("hl", [dest]);
       ("tk", [tk]); ("q", [origin]); ("dt", ["t"; "bd"]); ("dj", ["1"]);
       ("source", ["popup"])].
Proof. vm_compute. reflexivity. Qed.

Lemma getReq_plain (a : Translator) (cl : Client) (now : Z)
  (origin src dest : string) (st : Token.Store) (req0 : Request) :
  plain_host (host a) = true ->
  http_NewRequest "GET" (tranUrl (host a)) = inl req0 ->
  exists tk st',
    Token.do (page w (ta_host (ta a))) now (runes origin) st = ((tk, None), st')
    /\ getReq w a cl now origin src dest st
       = (inl {| Method := "GET";
                 Url := {| Base := tranUrl (host a);
                           RawQuery :=
                             Encode (add_params ∅ origin src dest tk);
                           Fragment := EmptyString |};
                 Header := [] |}, st').
Proof.
  intros Hh Hnew. unfold getReq.
  pose proof (do_no_error (page w (ta_host (ta a))) now (runes origin) st) as He.
  destruct (Token.do _ now (runes origin) st) as [[tk e] st'].
  cbn in He. subst e. exists tk, st'. split; [reflexivity|].
  rewrite Hnew, (NewRequest_tranUrl _ _ Hh Hnew).
  cbn [Url RawQuery Base Fragment Method Header].
  now rewrite ParseQuery_empty.
Qed.

End RequestBuilder.

(** ** Requests, tokens and status codes *)

Section Requests.

Context {lib : GoLib} {consts : Constants} (w : World).

Lemma getReq_no_token_error (a : Translator) (cl : Client) (now : Z)
  (origin src dest : string) (st : Token.Store) (e : Token.KeyError) :
  fst (getReq w a cl now origin src dest st) <> inr (TokenError e).
Proof.
  unfold getReq.
  pose proof (do_no_error (page w (ta_host (ta a))) now (runes origin) st) as He.
  destruct (Token.do _ now (runes origin) st) as [[tk err] st'].
  cbn in He. subst err.
  unfold http_NewRequest, url_Parse.
  destruct (cut "#" _) as [u frag]. destruct (has_ctl u); [discriminate|].
  destruct (cut "?" u) as [rest query].
  destruct (url_check rest frag); discriminate.
Qed.

Lemma translate_response_no_token_error (r : Response + string)
  (e : Token.KeyError) :
  snd (translate_response w r) <> Some (TokenError e).
Proof.
  unfold translate_response, status_error.
  destruct r as [resp|msg]; [|discriminate].
  destruct (StatusCode resp =? 200); [|discriminate].
  destruct (ReadAll resp); [|discriminate].
  destruct (Unmarshal_sentences w _); discriminate.
Qed.

Lemma detect_response_no_token_error (r : Response + string)
  (e : Token.KeyError) :
  snd (detect_response w r) <> Some (TokenError e).
Proof.
  unfold detect_response, status_error.
  destruct r as [resp|msg]; [|discriminate].
  destruct (negb (StatusCode resp =? 200)); [discriminate|].
  destruct (ReadAll resp); [|discriminate].
  destruct (Unmarshal_LDResponse w _) as [d [msg|]]; discriminate.
Qed.

Lemma translate_no_token_error (a : Translator) (cl : Client) (now : Z)
  (origin src dest : string) (st : Token.Store) (e : Token.KeyError) :
  snd (fst (translate w a cl now origin src dest st)) <> Some (TokenError e).
Proof.
  unfold translate.
  pose proof (getReq_no_token_error a cl now origin src dest st e) as H.
  destruct (getReq w a cl now origin src dest st) as [[req|err] st']; cbn in *.
  - apply translate_response_no_token_error.
  - congruence.
Qed.

Lemma detect_no_token_error (a : Translator) (cl : Client) (now : Z)
  (origin dest : string) (st : Token.Store) (e : Token.KeyError) :
  snd (fst (detect w a cl now origin dest st)) <> Some (TokenError e).
Proof.
  unfold detect.
  pose proof (getReq_no_token_error a cl now origin "auto" dest st e) as H.
  destruct (getReq w a cl now origin "auto" dest st) as [[req|err] st'];
    cbn in *.
  - apply detect_response_no_token_error.
  - congruence.
Qed.

(** C1: when the Store holds no pair and the host page answers with a
    status outside 2xx or with a body in which no pair is found, [Current]
    returns the synthetic pair of the wall clock, a valid pair, and no
    error; and neither [getReq] nor [Translate] nor [DetectLanguage] fails
    with an error of the token acquisition. *)
Theorem key_failures_absorbed (a : Translator) (cl : Client) (now : Z)
  (origin src dest : string) (st : Token.Store) (status : Z) (body : string) :
  Token.cache st = None ->
  page w (ta_host (ta a)) (Token.fetches st) = Token.HttpResponse status body ->
  (~ (200 <= status < 300)) \/ Token.scan false body = None ->
  Token.int64 now ->
  Token.Current (page w (ta_host (ta a))) now st
  = ((Token.synthetic_pair now, None),
     {| Token.cache := None; Token.fetches := S (Token.fetches st) |})
  /\ Token.valid_pair (Token.synthetic_pair now)
  /\ Token.do (page w (ta_host (ta a))) now (runes origin) st
     = ((Token.Derive (runes origin) (Token.synthetic_pair now), None),
        {| Token.cache := None; Token.fetches := S (Token.fetches st) |})
  /\ (forall e, fst (getReq w a cl now origin src dest st)
                <> inr (TokenError e))
  /\ (forall e, snd (fst (Translate w a now origin src dest st))
                <> Some (TokenError e))
  /\ (forall e, snd (fst (DetectLanguage w a now origin dest st))
                <> Some (TokenError e)).
Proof.
  intros Hc Hp Hfail Hnow.
  assert (Token.scan_response (page w (ta_host (ta a)) (Token.fetches st)) = None)
    as Hs.
  { rewrite Hp. destruct Hfail as [Hst|Hbody].
    - now apply scan_response_non2xx.
    - cbn [Token.scan_response]. rewrite Hbody. now destruct (_ && _). }
  pose proof (Current_fallback (page w (ta_host (ta a))) now st Hc Hs) as HC.
  split; [exact HC|]. split; [now apply synthetic_pair_valid|].
  split; [unfold Token.do; now rewrite HC|].
  split; [intros e; apply getReq_no_token_error|]. split.
  - intros e. unfold Translate.
    pose proof (translate_no_token_error a (client a) now origin
                  (ToLower src) (ToLower dest) st e) as H.
    destruct (translate w a (client a) now origin _ _ st)
      as [[text [err|]] st']; cbn in *; congruence.
  - intros e. unfold DetectLanguage. apply detect_no_token_error.
Qed.

(** When [http.NewRequest] refuses the translate URL, [getReq] returns its
    error and no request. *)
Lemma getReq_NewRequest_error (a : Translator) (cl : Client) (now : Z)
  (origin src dest : string) (st : Token.Store) (e : error) :
  http_NewRequest "GET" (tranUrl (host a)) = inr e ->
  fst (getReq w a cl now origin src dest st) = inr e.
Proof.
  intros Hnew. unfold getReq.
  pose proof (do_no_error (page w (ta_host (ta a))) now (runes origin) st)
    as He.
  destruct (Token.do _ now (runes origin) st) as [[tk err] st'].
  cbn in He. subst err. now rewrite Hnew.
Qed.

(** C2: for a host name free of control bytes, [?] and [#] with which
    [http.NewRequest] accepts the translate URL, the request of every
    translation and detection is a GET to
    [https://<host>/translate_a/single] whose query holds exactly
    [client=gtx], [sl], [tl], [hl], the derived token under [tk], [q],
    [dt=t], [dt=bd], [dj=1] and [source=popup]; [translate] sends it with
    the given languages, [detect] with [auto] as the source. *)
Theorem getReq_builds_request (a : Translator) (cl : Client) (now : Z)
  (origin src dest : string) (st : Token.Store) (req0 : Request) :
  plain_host (host a) = true ->
  http_NewRequest "GET" ("https://" +:+ host a +:+ "/translate_a/single")
  = inl req0 ->
  exists tk st',
    Token.do (page w (ta_host (ta a))) now (runes origin) st = ((tk, None), st')
    /\ let request sl tl :=
         {| Method := "GET";
            Url := {| Base := "https://" +:+ host a +:+ "/translate_a/single";
                      RawQuery :=
                        Encode
                          (list_to_map
                             [("client", ["gtx"]); ("sl", [sl]); ("tl", [tl]);
                              ("hl", [tl]); ("tk", [tk]); ("q", [origin]);
                              ("dt", ["t"; "bd"]); ("dj", ["1"]);
                              ("source", ["popup"])]);
                      Fragment := EmptyString |};
            Header := [] |} in
       getReq w a cl now origin src dest st = (inl (request src dest), st')
       /\ translate w a cl now origin src dest st
          = (translate_response w (Do w cl (request src dest)), st')
       /\ detect w a cl now origin dest st
          = (detect_response w (Do w cl (request "auto" dest)), st').
Proof.
  intros Hh Hnew. change (_ +:+ _) with (tranUrl (host a)) in Hnew.
  destruct (getReq_plain w a cl now origin src dest st req0 Hh Hnew)
    as (tk & st' & Hdo & Hreq).
  destruct (getReq_plain w a cl now origin "auto" dest st req0 Hh Hnew)
    as (tk2 & st2 & Hdo2 & Hreq2).
  rewrite Hdo in Hdo2. injection Hdo2 as <- <-.
  exists tk, st'. split; [exact Hdo|]. cbv zeta.
  rewrite add_params_empty in Hreq, Hreq2. unfold tranUrl in Hreq, Hreq2.
  split; [exact Hreq|]. split.
  - unfold translate. now rewrite Hreq.
  - unfold detect. now rewrite Hreq2.
Qed.

(** C3: when the translate endpoint answers the request of [getReq] with a
    status code other than 200, [translate] returns the empty string and
    the error whose message reports the received code, [Translate] returns
    no result with that error, and [detect] returns it as well. *)
Theorem non200_is_error (a : Translator) (cl : Client) (now : Z)
  (origin src dest : string) (st : Token.Store) (resp : Response) :
  StatusCode resp <> 200 ->
  let err :=
    Errorf ("expected statusCode 200, got: " +:+ decimal (StatusCode resp)
            +:+ "; resp: " +:+ fmt_resp resp) in
  (forall req st',
      getReq w a cl now origin src dest st = (inl req, st') ->
      Do w cl req = inl resp ->
      translate w a cl now origin src dest st = ((EmptyString, Some err), st'))
  /\ (forall req st',
         getReq w a (client a) now origin (ToLower src) (ToLower dest) st
         = (inl req, st') ->
         Do w (client a) req = inl resp ->
         Translate w a now origin src dest st = ((None, Some err), st'))
  /\ (forall req st',
         getReq w a cl now origin "auto" dest st = (inl req, st') ->
         Do w cl req = inl resp ->
         detect w a cl now origin dest st
         = ((LDResponse_zero, Some err), st')).
Proof.
  intros Hcode err.
  assert ((StatusCode resp =? 200) = false) as Hb by now apply Z.eqb_neq.
  split; [|split]; intros req st' Hreq Hdo.
  - unfold translate. rewrite Hreq, Hdo. cbn [translate_response].
    now rewrite Hb.
  - unfold Translate, translate. rewrite Hreq, Hdo. cbn [translate_response].
    now rewrite Hb.
  - unfold detect. rewrite Hreq, Hdo. cbn [detect_response].
    now rewrite Hb.
Qed.

End Requests.

(** ** The two copies of [New] *)

Section Construction.

Context {lib : GoLib} {consts : Constants} (w : World).

Lemma randomChoose_cons (seed : Z) (draw : nat) (x : string)
  (l : list string) :
  exists y, randomChoose w seed draw (x :: l) = Some y /\ y ∈ x :: l.
Proof.
  unfold randomChoose.
  pose proof (Intn_lt w seed draw (length (x :: l)) ltac:(cbn; lia)) as Hlt.
  destruct (lookup_lt_is_Some_2 (x :: l) _ Hlt) as [y Hy].
  exists y. split; [exact Hy|]. eapply list_elem_of_lookup_2, Hy.
Qed.

Lemma Part002_New_no_proxy (seed : Z) (config : list Config)
  (t : Translator) :
  Part002.New w seed config = Some t -> Proxy (client t) = None.
Proof.
  unfold Part002.New. cbn [ServiceUrls UserAgent ConfigProxy].
  destruct (randomChoose w seed 0 _) as [h|]; [|discriminate].
  destruct (randomChoose w seed 1 _) as [ua|]; [|discriminate].
  cbn. intros [= <-]. reflexivity.
Qed.

Lemma New_explicit (seed : Z) (url agent proxy : string)
  (urls agents : list string) (rest : list Config) :
  exists h ua,
    h ∈ url :: urls /\ ua ∈ agent :: agents
    /\ New w seed ({| ServiceUrls := url :: urls; UserAgent := agent :: agents;
                      ConfigProxy := proxy |} :: rest)
       = Some {| host := h; client := make_client ua proxy;
                 ta := Token h (make_client ua proxy) |}.
Proof.
  destruct (randomChoose_cons seed 0 url urls) as (h & Hh & Hin).
  destruct (randomChoose_cons seed 1 agent agents) as (ua & Hua & Hin').
  exists h, ua. split; [exact Hin|]. split; [exact Hin'|].
  unfold New. cbn [ServiceUrls UserAgent ConfigProxy].
  rewrite Hh. cbn [mbind option_bind]. rewrite Hua. reflexivity.
Qed.

(** C8: [New] of [unnamed/part_002] builds for every list of configurations
    the translator it builds for none; [New] of [translate.go] draws the
    host and the user agent from a supplied configuration and hands its
    proxy to the client; and on the README's proxy configuration the two
    return different translators. *)
Theorem New_copies_differ (seed : Z) :
  (forall config, Part002.New w seed config = Part002.New w seed [])
  /\ (forall url urls agent agents proxy rest,
         exists h ua,
           h ∈ url :: urls /\ ua ∈ agent :: agents
           /\ New w seed ({| ServiceUrls := url :: urls;
                             UserAgent := agent :: agents;
                             ConfigProxy := proxy |} :: rest)
              = Some {| host := h; client := make_client ua proxy;
                        ta := Token h (make_client ua proxy) |})
  /\ New w seed [Sample.proxy_config]
     <> Part002.New w seed [Sample.proxy_config].
Proof.
  split; [reflexivity|]. split.
  - intros. apply New_explicit.
  - intros Heq.
    assert (exists t, New w seed [Sample.proxy_config] = Some t
                      /\ Proxy (client t) = Some "http://PROXY_HOST:PROXY_PORT")
      as (t & Ht & Hp).
    { unfold New, Sample.proxy_config. cbn [ServiceUrls UserAgent ConfigProxy].
      destruct (randomChoose_cons seed 0 "translate.google.com" [])
        as (h & -> & _).
      destruct (randomChoose_cons seed 1 defaultUserAgent [])
        as (ua & Hua & _).
      cbn [mbind option_bind]. rewrite Hua. eexists. split; reflexivity. }
    rewrite Heq in Ht. apply Part002_New_no_proxy in Ht. congruence.
Qed.

End Construction.

(** ** The language table *)

Section Languages.

Context {lib : GoLib} {consts : Constants} (w : World).

Lemma range_find_Some (lang : string) (entries : list (string * string))
  (k : string) :
  range_find lang entries = Some k ->
  exists v, (k, v) ∈ entries /\ (k = lang \/ v = lang).
Proof.
  induction entries as [|[key val] rest IH]; [discriminate|].
  cbn [range_find].
  destruct (String.eqb_spec key lang) as [->|Hk]; cbn [orb].
  - intros [= <-]. exists val. split; [left|now left].
  - destruct (String.eqb_spec val lang) as [->|Hv].
    + intros [= <-]. exists lang. split; [left|now right].
    + intros H. destruct (IH H) as (v & Hin & Hm).
      exists v. split; [now right|exact Hm].
Qed.

Lemma range_find_None (lang : string) (entries : list (string * string)) :
  range_find lang entries = None ->
  forall k v, (k, v) ∈ entries -> k <> lang /\ v <> lang.
Proof.
  induction entries as [|[key val] rest IH]; intros H k v Hin.
  - now apply elem_of_nil in Hin.
  - cbn [range_find] in H.
    destruct (String.eqb_spec key lang) as [->|Hk]; [discriminate|].
    destruct (String.eqb_spec val lang) as [->|Hv]; [discriminate|].
    cbn [orb] in H. apply elem_of_cons in Hin as [[= -> ->]|Hin]; [easy|].
    now apply IH.
Qed.

(** What a call of [GetValidLanguageKey] returns, for whatever order its
    loop visits the entries of the languages map in. *)
Lemma GetValidLanguageKey_spec (visit : LangMap -> list (string * string))
  (g : Globals) (lang : string) :
  let m := deref g (languages g) in
  visit m ≡ₚ map_to_list m ->
  (exists k v, m !! k = Some v /\ (k = ToLower lang \/ v = ToLower lang))
  /\ (exists k v, GetValidLanguageKey visit g lang = (k, None)
                  /\ m !! k = Some v
                  /\ (k = ToLower lang \/ v = ToLower lang))
  \/ (~ exists k v, m !! k = Some v /\ (k = ToLower lang \/ v = ToLower lang))
     /\ GetValidLanguageKey visit g lang
        = (defaultLanguage,
           Some (Errorf ("invalid language '" +:+ ToLower lang +:+ "'"))).
Proof.
  intros m Hperm. unfold GetValidLanguageKey. fold m.
  destruct (range_find (ToLower lang) (visit m)) as [k|] eqn:E.
  - left. destruct (range_find_Some _ _ _ E) as (v & Hin & Hm).
    rewrite Hperm in Hin. apply elem_of_map_to_list in Hin.
    split; exists k, v; auto.
  - right. split; [|reflexivity].
    intros (k & v & Hkv & Hm).
    apply elem_of_map_to_list in Hkv. rewrite <- Hperm in Hkv.
    destruct (range_find_None _ _ E k v Hkv). destruct Hm; congruence.
Qed.

(** C10: whatever the order of the [range] loop, when the lowercased input
    is a key or a value of the languages map, [GetValidLanguageKey] returns
    with a nil error a key of the map that is the input or whose value is
    the input; otherwise it returns [defaultLanguage] with the error
    "invalid language"; the returned string is thus a key of the map or
    [defaultLanguage], and the function of [unnamed/part_002] returns the
    same. *)
Theorem GetValidLanguageKey_total (visit : LangMap -> list (string * string))
  (g : Globals) (lang : string) :
  visit (deref g (languages g)) ≡ₚ map_to_list (deref g (languages g)) ->
  let m := deref g (languages g) in
  let matches k v := m !! k = Some v /\ (k = ToLower lang \/ v = ToLower lang) in
  ((exists k v, matches k v) ->
   exists k v, GetValidLanguageKey visit g lang = (k, None) /\ matches k v)
  /\ ((~ exists k v, matches k v) ->
      GetValidLanguageKey visit g lang
      = (defaultLanguage,
         Some (Errorf ("invalid language '" +:+ ToLower lang +:+ "'"))))
  /\ (fst (GetValidLanguageKey visit g lang) ∈ dom m
      \/ fst (GetValidLanguageKey visit g lang) = defaultLanguage)
  /\ Part002.GetValidLanguageKey visit g lang
     = GetValidLanguageKey visit g lang.
Proof.
  intros Hperm m matches.
  destruct (GetValidLanguageKey_spec visit g lang Hperm)
    as [[Hex (k & v & Hr & Hk & Hm)]|[Hno Hr]].
  - split; [intros _; exists k, v; repeat split; assumption|].
    split; [intros Hn; now destruct Hn|].
    split; [|reflexivity].
    left. rewrite Hr. cbn. apply elem_of_dom. now exists v.
  - split; [intros Hex; now destruct Hno|].
    split; [intros _; exact Hr|].
    split; [|reflexivity].
    right. now rewrite Hr.
Qed.

End Languages.

(** ** The refresh of the language table *)

Section Refresh.

Context {lib : GoLib} {consts : Constants} (w : World).

Lemma map_assign_spec (l : nat) (k v : string) (h h' : gmap nat LangMap) :
  map_assign l k v h = Some h' ->
  exists m, h !! l = Some m /\ h' = <[l := <[k := v]> m]> h.
Proof.
  unfold map_assign. destruct (h !! l) as [m|]; [|discriminate].
  cbn. intros [= <-]. now exists m.
Qed.

(** The loop over the rows writes through the one reference: the other
    maps of the heap are untouched, the map behind the reference keeps its
    keys, and the short name of every row that yields an entry is a key of
    it afterwards. *)
Lemma rows_loop_spec (l : nat) (trs : list string) :
  forall h h',
    rows_loop trs l h = Some h' ->
    (forall l', l' <> l -> h' !! l' = h !! l')
    /\ dom (default ∅ (h !! l)) ⊆ dom (default ∅ (h' !! l))
    /\ (forall tr k v,
           tr ∈ trs -> row_entry tr = Some (Some (k, v)) ->
           k ∈ dom (default ∅ (h' !! l))).
Proof.
  induction trs as [|tr rest IH]; intros h h' Hloop.
  - injection Hloop as <-. split; [easy|]. split; [easy|].
    intros tr k v Hin. now apply elem_of_nil in Hin.
  - cbn [rows_loop] in Hloop.
    destruct (row_entry tr) as [[[k v]|]|] eqn:E; cbn in Hloop;
      [| |discriminate].
    + destruct (map_assign l k v h) as [h1|] eqn:Ea; cbn in Hloop;
        [|discriminate].
      destruct (map_assign_spec _ _ _ _ _ Ea) as (m & Hm & ->).
      destruct (IH _ _ Hloop) as (Hframe & Hdom & Hrows).
      rewrite lookup_insert_eq in Hdom. simpl in Hdom.
      rewrite dom_insert_L in Hdom.
      split.
      { intros l' Hl'. rewrite (Hframe l' Hl').
        now rewrite lookup_insert_ne by congruence. }
      split.
      { rewrite Hm. simpl. etrans; [|exact Hdom]. apply union_subseteq_r. }
      intros tr' k' v' Hin Hrow. apply elem_of_cons in Hin as [->|Hin].
      * rewrite E in Hrow. injection Hrow as <- <-.
        apply Hdom, elem_of_union_l, elem_of_singleton. reflexivity.
      * eapply Hrows; eassumption.
    + destruct (IH _ _ Hloop) as (Hframe & Hdom & Hrows).
      split; [exact Hframe|]. split; [exact Hdom|].
      intros tr' k' v' Hin Hrow. apply elem_of_cons in Hin as [->|Hin].
      * rewrite E in Hrow. discriminate.
      * eapply Hrows; eassumption.
Qed.

Lemma GetAvaliableLanguagesHTTP_flag (g : Globals) :
  GetAvaliableLanguagesHTTP w false g = GetAvaliableLanguagesHTTP w true g.
Proof.
  unfold GetAvaliableLanguagesHTTP.
  destruct (Do w plain_client langs_request) as [res|msg]; [|reflexivity].
  destruct (ReadAll res) as [bodyStr|msg]; reflexivity.
Qed.

(** C9: [GetAvaliableLanguagesHTTP] does the same to the globals with the
    flag false as with the flag true. When it returns without an error, the
    map it returns is the very map of [languages]; the variable still
    refers to it; and the short name of every row of the fetched page that
    yields an entry is a key of the map [GetAvaliableLanguages] returns
    afterwards, so that [GetValidLanguageKey] accepts it. *)
Theorem refresh_mutates_languages (flag : bool) (g g' : Globals) (l : nat) :
  GetAvaliableLanguagesHTTP w flag g = Some ((l, None), g') ->
  GetAvaliableLanguagesHTTP w false g = GetAvaliableLanguagesHTTP w true g
  /\ l = languages g
  /\ GetAvaliableLanguages g' = GetAvaliableLanguages g
  /\ dom (deref g (languages g)) ⊆ dom (deref g' (GetAvaliableLanguages g'))
  /\ exists res bodyStr trs,
       Do w plain_client langs_request = inl res
       /\ ReadAll res = inl bodyStr
       /\ table_rows bodyStr = Some trs
       /\ forall tr k v,
            tr ∈ trs -> row_entry tr = Some (Some (k, v)) ->
            k ∈ dom (deref g' (GetAvaliableLanguages g'))
            /\ forall visit lang,
                 visit (deref g' (languages g'))
                 ≡ₚ map_to_list (deref g' (languages g')) ->
                 ToLower lang = k ->
                 snd (GetValidLanguageKey visit g' lang) = None.
Proof.
  intros H. split; [apply GetAvaliableLanguagesHTTP_flag|].
  unfold GetAvaliableLanguagesHTTP in H.
  destruct (Do w plain_client langs_request) as [res|msg] eqn:Edo;
    [|discriminate].
  destruct (ReadAll res) as [bodyStr|msg] eqn:Eread; [|discriminate].
  destruct (table_rows bodyStr) as [trs|] eqn:Etab; cbn in H; [|discriminate].
  destruct (rows_loop trs (languages g) (heap g)) as [h|] eqn:Eloop;
    cbn in H; [|discriminate].
  injection H as <- <-.
  assert ((if flag then languages g else languages g) = languages g) as Hl
    by now destruct flag.
  destruct (rows_loop_spec _ _ _ _ Eloop) as (_ & Hdom & Hrows).
  set (g' := {| heap := h;
                languages := if flag then languages g else languages g |}).
  assert (languages g' = languages g) as Hg' by exact Hl.
  assert (deref g' (languages g') = default ∅ (h !! languages g)) as Hd.
  { unfold deref. now rewrite Hg'. }
  unfold GetAvaliableLanguages. rewrite Hd.
  split; [reflexivity|]. split; [exact Hg'|]. split; [exact Hdom|].
  exists res, bodyStr, trs.
  split; [reflexivity|]. split; [exact Eread|]. split; [exact Etab|].
  intros tr k v Hin Hrow. pose proof (Hrows tr k v Hin Hrow) as Hk.
  split; [exact Hk|].
  - intros visit lang Hperm Hlang.
    apply elem_of_dom in Hk as [v' Hv'].
    rewrite <- Hd in Hperm.
    destruct (GetValidLanguageKey_spec visit g' lang Hperm)
      as [[_ (k1 & v1 & -> & _)]|[Hno _]]; [reflexivity|].
    exfalso. apply Hno. exists k, v'. split; [now rewrite Hd|]. now left.
Qed.

End Refresh.

(** ** The theorems at work on the sample world *)

Section OnSample.

#[local] Existing Instance Sample.lib.
#[local] Existing Instance Sample.consts.

(** The host page answers 404 at Unix time 1700000000. *)
Lemma key_failures_absorbed_witness :
  Token.cache Token.empty_store = None
  /\ page Sample.world_down (ta_host (ta Sample.translator)) 0
     = Token.HttpResponse 404 "tkk:'1.2'"
  /\ (~ (200 <= 404 < 300))
  /\ Token.int64 1700000000
  /\ Token.Current (page Sample.world_down (ta_host (ta Sample.translator)))
       1700000000 Token.empty_store
     = (({| Token.a := 472222; Token.b := 472222 |}, None),
        {| Token.cache := None; Token.fetches := 1 |})
  /\ forall e,
       fst (getReq Sample.world_down Sample.translator
              (client Sample.translator) 1700000000 "Hi" "auto" "pt"
              Token.empty_store)
       <> inr (TokenError e).
Proof.
  assert (~ (200 <= 404 < 300)) as Hst by lia.
  assert (Token.int64 1700000000) as Hnow by (unfold Token.int64; lia).
  destruct (key_failures_absorbed Sample.world_down Sample.translator
              (client Sample.translator) 1700000000 "Hi" "auto" "pt"
              Token.empty_store 404 "tkk:'1.2'" eq_refl eq_refl
              (or_introl Hst) Hnow) as (HC & _ & _ & Hreq & _).
  split; [reflexivity|]. split; [reflexivity|]. split; [exact Hst|].
  split; [exact Hnow|]. split; [exact HC|exact Hreq].
Defined.

(** The request for the text "Hi" from [auto] to [pt]. *)
Lemma getReq_builds_request_witness :
  plain_host (host Sample.translator) = true
  /\ http_NewRequest "GET" "https://translate.google.com/translate_a/single"
     = inl {| Method := "GET";
              Url := {| Base :=
                          "https://translate.google.com/translate_a/single";
                        RawQuery := EmptyString; Fragment := EmptyString |};
              Header := [] |}
  /\ exists st',
       getReq Sample.world Sample.translator (client Sample.translator) 0
         "Hi" "auto" "pt" Token.empty_store
       = (inl {| Method := "GET";
                 Url := {| Base :=
                             "https://translate.google.com/translate_a/single";
                           RawQuery :=
                             Encode
                               (list_to_map
                                  [("client", ["gtx"]); ("sl", ["auto"]);
                                   ("tl", ["pt"]); ("hl", ["pt"]);
                                   ("tk", ["380595.380594"]); ("q", ["Hi"]);
                                   ("dt", ["t"; "bd"]); ("dj", ["1"]);
                                   ("source", ["popup"])]);
                           Fragment := EmptyString |};
                 Header := [] |}, st').
Proof.
  split; [reflexivity|]. split; [reflexivity|].
  destruct (getReq_builds_request Sample.world Sample.translator
              (client Sample.translator) 0 "Hi" "auto" "pt"
              Token.empty_store
              {| Method := "GET";
                 Url := {| Base :=
                             "https://translate.google.com/translate_a/single";
                           RawQuery := EmptyString;
                           Fragment := EmptyString |};
                 Header := [] |} eq_refl eq_refl)
    as (tk & st' & Hdo & Hreq & _).
  vm_compute in Hdo. injection Hdo as <- _.
  exists st'. exact Hreq.
Defined.

(** A host with a space: the checks of the sample library refuse it, and
    [getReq] returns the error. *)
Example getReq_refuses_space :
  fst (getReq Sample.world
         {| host := "a b"; client := client Sample.translator;
            ta := ta Sample.translator |}
         (client Sample.translator) 0 "Hi" "auto" "pt" Token.empty_store)
  = inr (UrlError "invalid character in host name").
Proof. apply getReq_NewRequest_error. reflexivity. Qed.

(** The translate endpoint of the sample world answers 503. *)
Lemma non200_is_error_witness :
  503 <> 200
  /\ fst (translate Sample.world Sample.translator (client Sample.translator)
            0 "Hi" "auto" "pt" Token.empty_store)
     = (EmptyString,
        Some (Errorf "expected statusCode 200, got: 503; resp: 503")).
Proof.
  assert (503 <> 200) as Hne by lia. split; [exact Hne|].
  destruct (non200_is_error Sample.world Sample.translator
              (client Sample.translator) 0 "Hi" "auto" "pt"
              Token.empty_store
              {| StatusCode := 503; ReadAll := inl EmptyString |} Hne)
    as (H & _ & _).
  destruct (getReq Sample.world Sample.translator (client Sample.translator)
              0 "Hi" "auto" "pt" Token.empty_store) as [[req|e] st'] eqn:E;
    [|vm_compute in E; discriminate].
  rewrite (H req st' eq_refl).
  - reflexivity.
  - vm_compute in E. injection E as <- _. reflexivity.
Defined.

(** The refresh with the flag false adds the row of the sample page to the
    shared table: "TL" is refused before the call and accepted after it. *)
Lemma refresh_mutates_languages_witness :
  let g' :=
    {| heap := {[ 0%nat := {[ "en" := "english"; "pt" := "portuguese";
                              "tl" := "klingon" ]} ]};
       languages := 0%nat |} in
  GetAvaliableLanguagesHTTP Sample.world false Sample.globals
  = Some ((0%nat, None), g')
  /\ deref Sample.globals (GetAvaliableLanguages Sample.globals) !! "tl" = None
  /\ "tl" ∈ dom (deref g' (GetAvaliableLanguages g'))
  /\ GetValidLanguageKey map_to_list Sample.globals "TL"
     = ("auto", Some (Errorf "invalid language 'tl'"))
  /\ GetValidLanguageKey map_to_list g' "TL" = ("tl", None).
Proof.
  intros g'.
  assert (GetAvaliableLanguagesHTTP Sample.world false Sample.globals
          = Some ((0%nat, None), g')) as Hcall by (vm_compute; reflexivity).
  destruct (refresh_mutates_languages Sample.world false Sample.globals g'
              0%nat Hcall)
    as (_ & _ & _ & _ & res & bodyStr & trs & Hdo & Hread & Htab & Hrows).
  injection Hdo as <-. injection Hread as <-.
  vm_compute in Htab. injection Htab as <-.
  destruct (Hrows "<td>Klingon</td><td><code>TL</code></td></tr>"
              "tl" "klingon") as [Hk Hget].
  { apply list_elem_of_here || (right; left). }
  { vm_compute. reflexivity. }
  split; [exact Hcall|]. split; [vm_compute; reflexivity|].
  split; [exact Hk|]. split; [vm_compute; reflexivity|].
  pose proof (Hget map_to_list "TL" (reflexivity _) eq_refl) as Hnil.
  vm_compute. reflexivity.
Defined.

(** A full language name is mapped to its key, an unknown one to the
    default. *)
Lemma GetValidLanguageKey_total_witness :
  map_to_list (deref Sample.globals (languages Sample.globals))
  ≡ₚ map_to_list (deref Sample.globals (languages Sample.globals))
  /\ GetValidLanguageKey map_to_list Sample.globals "Portuguese" = ("pt", None)
  /\ GetValidLanguageKey map_to_list Sample.globals "Klingon"
     = ("auto", Some (Errorf "invalid language 'klingon'")).
Proof.
  split; [reflexivity|]. split.
  - destruct (GetValidLanguageKey_total map_to_list Sample.globals
                "Portuguese" (reflexivity _)) as (H & _).
    destruct H as (k & v & Hr & _).
    + exists "pt", "portuguese". split; [vm_compute; reflexivity|now right].
    + rewrite Hr. vm_compute in Hr. injection Hr as <-. reflexivity.
  - vm_compute. reflexivity.
Defined.

End OnSample.

(** * Further properties of the client *)

(** ** Results and errors of [translate], [Translate] and [detect] *)

Section Outcomes.

Context {lib : GoLib} {consts : Constants} (w : World).

Lemma append_assoc (s t u : string) : (s +:+ t) +:+ u = s +:+ (t +:+ u).
Proof.
  induction s as [|c s IH]; [reflexivity|]. now rewrite !append_cons, IH.
Qed.

Lemma append_empty_r (s : string) : s +:+ EmptyString = s.
Proof.
  induction s as [|c s IH]; [reflexivity|]. now rewrite append_cons, IH.
Qed.

Lemma fold_left_Trans (sentences : list sentence) :
  forall translated,
    fold_left (fun translated s => translated +:+ Trans s) sentences translated
    = translated +:+ foldr String.append EmptyString (map Trans sentences).
Proof.
  induction sentences as [|s rest IH]; intros translated.
  - cbn. now rewrite append_empty_r.
  - cbn [fold_left]. rewrite IH.
    change (foldr String.append EmptyString (map Trans (s :: rest)))
      with (Trans s +:+ foldr String.append EmptyString (map Trans rest)).
    apply append_assoc.
Qed.

(** X1: when the endpoint answers 200 with a readable body that decodes, the
    text [translate] returns is the [trans] fields of all the sentences
    joined in their order, with a nil error; with no sentence at all it is
    the empty string, still with a nil error. *)
Theorem translate_joins_sentences (a : Translator) (cl : Client) (now : Z)
  (origin src dest : string) (st st' : Token.Store) (req : Request)
  (resp : Response) (body : string) (sentences : list sentence) :
  getReq w a cl now origin src dest st = (inl req, st') ->
  Do w cl req = inl resp ->
  StatusCode resp = 200 ->
  ReadAll resp = inl body ->
  Unmarshal_sentences w body = inl sentences ->
  translate w a cl now origin src dest st
  = ((foldr String.append EmptyString (map Trans sentences), None), st')
  /\ (sentences = [] ->
      translate w a cl now origin src dest st = ((EmptyString, None), st')).
Proof.
  intros Hreq Hdo Hcode Hread Hjson.
  assert (translate w a cl now origin src dest st
          = ((foldr String.append EmptyString (map Trans sentences), None),
             st')) as H.
  { unfold translate. rewrite Hreq, Hdo. cbn [translate_response].
    rewrite Hcode, Hread, Hjson. cbn [Z.eqb Pos.eqb]. now rewrite fold_left_Trans. }
  split; [exact H|]. intros ->. exact H.
Qed.

Lemma translate_response_error_text (r : Response + string) :
  snd (translate_response w r) <> None ->
  fst (translate_response w r) = EmptyString.
Proof.
  unfold translate_response. destruct r as [resp|msg]; [|reflexivity].
  destruct (StatusCode resp =? 200); [|reflexivity].
  destruct (ReadAll resp) as [body|msg]; [|reflexivity].
  destruct (Unmarshal_sentences w body) as [ss|msg]; [|reflexivity].
  cbn. congruence.
Qed.

Lemma translate_error_text (a : Translator) (cl : Client) (now : Z)
  (origin src dest : string) (st : Token.Store) :
  snd (fst (translate w a cl now origin src dest st)) <> None ->
  fst (fst (translate w a cl now origin src dest st)) = EmptyString.
Proof.
  unfold translate.
  destruct (getReq w a cl now origin src dest st) as [[req|err] st'];
    [|reflexivity].
  cbn [fst snd]. apply translate_response_error_text.
Qed.

(** X2: [translate] never returns a text together with an error: whenever its
    error is not nil the text is the empty string. [Translate] returns a
    result exactly when its error is nil, and the result then carries the
    lowercased languages, the origin as given and the text of
    [translate]. *)
Theorem Translate_result_or_error (a : Translator) (now : Z)
  (origin src dest : string) (st : Token.Store) :
  let inner :=
    translate w a (client a) now origin (ToLower src) (ToLower dest) st in
  let outer := Translate w a now origin src dest st in
  (snd (fst inner) <> None -> fst (fst inner) = EmptyString)
  /\ snd (fst outer) = snd (fst inner)
  /\ snd outer = snd inner
  /\ (fst (fst outer) = None <-> snd (fst outer) <> None)
  /\ (snd (fst outer) = None ->
      fst (fst outer)
      = Some {| Src := ToLower src; Dest := ToLower dest; Origin := origin;
                Text := fst (fst inner) |}).
Proof.
  cbv zeta. split; [apply translate_error_text|].
  unfold Translate.
  destruct (translate w a (client a) now origin (ToLower src) (ToLower dest) st)
    as [[text [err|]] st']; cbn [fst snd].
  - repeat split; try reflexivity; congruence.
  - repeat split; try reflexivity; congruence.
Qed.

Lemma detect_response_zero (r : Response + string) (e : error) :
  snd (detect_response w r) = Some e ->
  (forall msg, e <> JsonError msg) ->
  fst (detect_response w r) = LDResponse_zero.
Proof.
  unfold detect_response. destruct r as [resp|msg]; [|reflexivity].
  destruct (negb (StatusCode resp =? 200)); [reflexivity|].
  destruct (ReadAll resp) as [body|msg]; [|reflexivity].
  destruct (Unmarshal_LDResponse w body) as [d [msg|]]; cbn.
  - intros [= <-] H. now destruct (H msg).
  - discriminate.
Qed.

(** X3: [detect] and [DetectLanguage] return the zero [LDResponse] with every
    error that is not a decoding error; with a decoding error they return
    what the decoder left in the value, and on success the decoded value,
    which the loop over its sentences leaves as it is. *)
Theorem detect_value_with_error (a : Translator) (cl : Client) (now : Z)
  (origin dest : string) (st : Token.Store) :
  (forall e,
      snd (fst (detect w a cl now origin dest st)) = Some e ->
      (forall msg, e <> JsonError msg) ->
      fst (fst (detect w a cl now origin dest st)) = LDResponse_zero)
  /\ (forall req st' resp body,
         getReq w a cl now origin "auto" dest st = (inl req, st') ->
         Do w cl req = inl resp ->
         StatusCode resp = 200 ->
         ReadAll resp = inl body ->
         detect w a cl now origin dest st
         = (match Unmarshal_LDResponse w body with
            | (detected, Some msg) => (detected, Some (JsonError msg))
            | (detected, None) => (detected, None)
            end, st'))
  /\ DetectLanguage w a now origin dest st
     = detect w a (client a) now origin (ToLower dest) st.
Proof.
  split; [|split; [|reflexivity]].
  - intros e. unfold detect.
    destruct (getReq w a cl now origin "auto" dest st) as [[req|err] st'];
      cbn [fst snd].
    + apply detect_response_zero.
    + reflexivity.
  - intros req st' resp body Hreq Hdo Hcode Hread.
    unfold detect. rewrite Hreq, Hdo. cbn [detect_response].
    rewrite Hcode, Hread. reflexivity.
Qed.

End Outcomes.

(** ** The query and the URL of [getReq] on unusual hosts *)

Section Queries.

Context {lib : GoLib} {consts : Constants} (w : World).

Lemma Add_lookup (k v j : string) (q : Values) :
  Add k v q !! j
  = if decide (k = j) then Some (default [] (q !! k) ++ [v]) else q !! j.
Proof. unfold Add. apply lookup_insert. Qed.

Lemma Add_comm (k1 k2 v1 v2 : string) (q : Values) :
  k1 <> k2 -> Add k1 v1 (Add k2 v2 q) = Add k2 v2 (Add k1 v1 q).
Proof.
  intros Hne. unfold Add.
  rewrite !lookup_insert_ne by congruence. now apply insert_insert_ne.
Qed.

Lemma add_params_nested (q : Values) (origin src dest tk : string) :
  add_params q origin src dest tk
  = Add "source" "popup" (Add "dj" "1" (Add "dt" "bd" (Add "dt" "t"
      (Add "client" "gtx" (Add "sl" src (Add "tl" dest (Add "hl" dest
         (Add "tk" tk (Add "q" origin q))))))))).
Proof.
  unfold add_params, buildParams. cbn [list_to_map foldr fst snd].
  do 6 (rewrite map_fold_insert_L;
        [|intros; now apply Add_comm|vm_compute; reflexivity]).
  now rewrite map_fold_empty.
Qed.

(** X4: [getReq] adds to the query the URL already has: under each of its nine
    names the earlier values stay in front of the client's, and every other
    name of the query keeps its values. *)
Theorem add_params_appends (q : Values) (origin src dest tk k : string) :
  add_params q origin src dest tk !! k
  = match
      (list_to_map
         [("client", ["gtx"]); ("sl", [src]); ("tl", [dest]); ("hl", [dest]);
          ("tk", [tk]); ("q", [origin]); ("dt", ["t"; "bd"]); ("dj", ["1"]);
          ("source", ["popup"])] : Values) !! k
    with
    | Some values => Some (default [] (q !! k) ++ values)
    | None => q !! k
    end.
Proof.
  rewrite add_params_nested, !Add_lookup.
  destruct (decide (k = "source")) as [->|N1]; [reflexivity|].
  destruct (decide (k = "dj")) as [->|N2]; [reflexivity|].
  destruct (decide (k = "dt")) as [->|N3].
  { transitivity (Some ((default [] (q !! "dt") ++ ["t"]) ++ ["bd"]));
      [reflexivity|].
    rewrite <- app_assoc. reflexivity. }
  destruct (decide (k = "client")) as [->|N4]; [reflexivity|].
  destruct (decide (k = "sl")) as [->|N5]; [reflexivity|].
  destruct (decide (k = "tl")) as [->|N6]; [reflexivity|].
  destruct (decide (k = "hl")) as [->|N7]; [reflexivity|].
  destruct (decide (k = "tk")) as [->|N8]; [reflexivity|].
  destruct (decide (k = "q")) as [->|N9]; [reflexivity|].
  cbn [list_to_map foldr fst snd].
  rewrite !lookup_insert_ne, lookup_empty by congruence.
  repeat (case_decide; [congruence|]). reflexivity.
Qed.

End Queries.

Section UnusualHosts.

Context {lib : GoLib} {consts : Constants} (w : World).

Lemma cut_at (sep : ascii) (s t : string) :
  free_of sep s = true -> cut sep (s +:+ String sep t) = (s, Some t).
Proof.
  unfold free_of. induction s as [|c s IH].
  - intros _. change (EmptyString +:+ String sep t) with (String sep t).
    cbn [cut]. now rewrite Ascii.eqb_refl.
  - cbn [list_ascii_of_string forallb]. intros H.
    apply andb_prop in H as [Hc Hs]. apply negb_true_iff in Hc.
    rewrite append_cons. cbn [cut]. now rewrite Hc, (IH Hs).
Qed.

(** X5: a service URL that carries a query: with the host [h?r], where [h] is
    plain and [r] holds no [#] and no control byte, a request that
    [http.NewRequest] accepts the translate URL for goes to [https://h],
    not to the path [/translate_a/single]; that path ends up at the tail of
    the query the parameters are added to. *)
Theorem getReq_host_with_query (a : Translator) (cl : Client) (now : Z)
  (origin src dest h r : string) (st : Token.Store) (req0 : Request) :
  host a = h +:+ String "?" r ->
  plain_host h = true ->
  free_of "#" r = true ->
  has_ctl r = false ->
  http_NewRequest "GET" ("https://" +:+ host a +:+ "/translate_a/single")
  = inl req0 ->
  exists tk st',
    Token.do (page w (ta_host (ta a))) now (runes origin) st = ((tk, None), st')
    /\ getReq w a cl now origin src dest st
       = (inl {| Method := "GET";
                 Url := {| Base := "https://" +:+ h;
                           RawQuery :=
                             Encode
                               (add_params
                                  (ParseQuery (r +:+ "/translate_a/single"))
                                  origin src dest tk);
                           Fragment := EmptyString |};
                 Header := [] |}, st').
Proof.
  intros Hhost Hh Hr Hctl Hnew.
  change (_ +:+ _) with (tranUrl (host a)) in Hnew.
  destruct (plain_host_parts h Hh) as (Hc & Hq & Hf).
  unfold getReq.
  pose proof (do_no_error (page w (ta_host (ta a))) now (runes origin) st)
    as He.
  destruct (Token.do _ now (runes origin) st) as [[tk e] st'].
  cbn in He. subst e. exists tk, st'. split; [reflexivity|].
  assert (tranUrl (host a)
          = ("https://" +:+ h) +:+ String "?" (r +:+ "/translate_a/single"))
    as Hurl.
  { unfold tranUrl. rewrite Hhost.
    rewrite (append_assoc h), append_cons, <- append_assoc. reflexivity. }
  assert (free_of "#" (tranUrl (host a)) = true) as F1.
  { rewrite Hurl, !free_of_app, Hf.
    change (String "?" (r +:+ "/translate_a/single"))
      with ("?" +:+ (r +:+ "/translate_a/single")).
    now rewrite !free_of_app, Hr. }
  assert (has_ctl (tranUrl (host a)) = false) as F3.
  { rewrite Hurl, !has_ctl_app, Hc.
    change (String "?" (r +:+ "/translate_a/single"))
      with ("?" +:+ (r +:+ "/translate_a/single")).
    now rewrite !has_ctl_app, Hctl. }
  assert (free_of "?" ("https://" +:+ h) = true) as F2.
  { now rewrite free_of_app, Hq. }
  unfold http_NewRequest, url_Parse in Hnew |- *.
  rewrite (cut_free _ _ F1), F3 in Hnew |- *.
  rewrite Hurl, (cut_at _ _ _ F2) in Hnew |- *.
  destruct (url_check ("https://" +:+ h) None); [discriminate|].
  reflexivity.
Qed.

(** X6: a service URL with a control byte and no [#]: [getReq] returns no
    request but the error of [http.NewRequest], [translate] returns the
    empty string with that error, [Translate] no result, and the Store is
    the one the token derivation left. *)
Theorem getReq_host_with_control_byte (a : Translator) (cl : Client)
  (now : Z) (origin src dest : string) (st : Token.Store) :
  has_ctl (host a) = true ->
  free_of "#" (host a) = true ->
  let err := UrlError "invalid control character in URL" in
  let st' := snd (Token.do (page w (ta_host (ta a))) now (runes origin) st) in
  getReq w a cl now origin src dest st = (inr err, st')
  /\ translate w a cl now origin src dest st = ((EmptyString, Some err), st')
  /\ Translate w a now origin src dest st = ((None, Some err), st')
  /\ detect w a cl now origin dest st = ((LDResponse_zero, Some err), st').
Proof.
  intros Hctl Hf err st'.
  assert (forall s d, getReq w a cl now origin s d st = (inr err, st')
                      /\ getReq w a (client a) now origin s d st
                         = (inr err, st')) as H.
  { intros s d. unfold getReq. subst st'.
    pose proof (do_no_error (page w (ta_host (ta a))) now (runes origin) st)
      as He.
    destruct (Token.do _ now (runes origin) st) as [[tk e] st1].
    cbn in He. subst e. cbn [snd].
    assert (free_of "#" (tranUrl (host a)) = true) as F1.
    { unfold tranUrl. now rewrite !free_of_app, Hf. }
    assert (has_ctl (tranUrl (host a)) = true) as F3.
    { unfold tranUrl. rewrite !has_ctl_app, Hctl. reflexivity. }
    unfold http_NewRequest, url_Parse. rewrite (cut_free _ _ F1), F3.
    now split. }
  split; [apply H|]. split; [|split].
  - unfold translate. now rewrite (proj1 (H src dest)).
  - unfold Translate, translate.
    now rewrite (proj2 (H (ToLower src) (ToLower dest))).
  - unfold detect. now rewrite (proj1 (H "auto" dest)).
Qed.

End UnusualHosts.

(** ** What [New] builds *)

Section Construction2.

Context {lib : GoLib} {consts : Constants} (w : World).

Lemma randomChoose_one (seed : Z) (draw : nat) (x : string) :
  randomChoose w seed draw [x] = Some x.
Proof.
  destruct (randomChoose_cons w seed draw x []) as (y & -> & Hin).
  apply list_elem_of_singleton in Hin. now subst.
Qed.

(** X7: [New] of [translate.go] never panics. The host is one of the service
    URLs of the first configuration, or [translate.google.com] when there
    is none; the user agent one of its agents, or the default one; the
    proxy is kept exactly when it starts with [http]; certificate
    verification is always skipped; the token acquirer is built for the
    same host and client; and the configurations after the first are
    ignored. *)
Theorem New_never_panics (seed : Z) (config : list Config) :
  let c :=
    match config with
    | c0 :: _ => c0
    | [] => {| ServiceUrls := []; UserAgent := []; ConfigProxy := EmptyString |}
    end in
  let urls :=
    match ServiceUrls c with [] => ["translate.google.com"] | l => l end in
  let agents :=
    match UserAgent c with [] => [defaultUserAgent] | l => l end in
  exists t ua,
    New w seed config = Some t
    /\ host t ∈ urls
    /\ ua ∈ agents
    /\ UserAgentHeader (client t) = Some ua
    /\ Proxy (client t)
       = (if gostrings.HasPrefix (ConfigProxy c) "http"
          then Some (ConfigProxy c) else None)
    /\ InsecureSkipVerify (client t) = true
    /\ ta t = Token (host t) (client t)
    /\ New w seed (take 1 config) = Some t.
Proof.
  intros c urls agents.
  assert (exists u us, urls = u :: us) as (u & us & Hu).
  { subst urls. destruct (ServiceUrls c); eauto. }
  assert (exists g gs, agents = g :: gs) as (g & gs & Hg).
  { subst agents. destruct (UserAgent c); eauto. }
  destruct (randomChoose_cons w seed 0 u us) as (h & Hh & Hin).
  destruct (randomChoose_cons w seed 1 g gs) as (ua & Hua & Hin').
  assert (New w seed config
          = Some {| host := h; client := make_client ua (ConfigProxy c);
                    ta := Token h (make_client ua (ConfigProxy c)) |}) as HN.
  { unfold New. fold c. fold urls. fold agents. rewrite Hu, Hg, Hh.
    cbn [mbind option_bind]. now rewrite Hua. }
  eexists _, ua. split; [exact HN|]. cbn [host client ta].
  rewrite Hu, Hg. repeat split; try assumption.
  rewrite <- HN. destruct config; reflexivity.
Qed.

(** X8: with one service URL and one user agent the seed plays no part: [New]
    returns the translator of that URL and agent; and with no configuration
    it returns, for every seed, the translator of [translate.google.com]
    with the default user agent and no proxy. *)
Theorem New_without_choice (seed : Z) (url agent proxy : string)
  (rest : list Config) :
  New w seed ({| ServiceUrls := [url]; UserAgent := [agent];
                 ConfigProxy := proxy |} :: rest)
  = Some {| host := url; client := make_client agent proxy;
            ta := Token url (make_client agent proxy) |}
  /\ New w seed []
     = Some {| host := "translate.google.com";
               client := {| UserAgentHeader := Some defaultUserAgent;
                            Proxy := None; InsecureSkipVerify := true |};
               ta := Token "translate.google.com"
                       {| UserAgentHeader := Some defaultUserAgent;
                          Proxy := None; InsecureSkipVerify := true |} |}.
Proof.
  split; unfold New; cbn [ServiceUrls UserAgent ConfigProxy];
    rewrite !randomChoose_one; reflexivity.
Qed.

(** X9: [New] of [unnamed/part_002] panics exactly when the package has no
    default service URL; otherwise its host is one of the default URLs, its
    user agent the default one, and it has no proxy, whatever the
    configuration. *)
Theorem Part002_New_panics_iff (seed : Z) (config : list Config) :
  (Part002.New w seed config = None <-> defaultServiceUrls = [])
  /\ (forall t,
         Part002.New w seed config = Some t ->
         host t ∈ defaultServiceUrls
         /\ client t = {| UserAgentHeader := Some defaultUserAgent;
                          Proxy := None; InsecureSkipVerify := true |}
         /\ ta t = Token (host t) (client t)).
Proof.
  unfold Part002.New. cbn [ServiceUrls UserAgent ConfigProxy].
  rewrite randomChoose_one.
  destruct defaultServiceUrls as [|u us] eqn:E.
  - split; [now split|]. intros t. discriminate.
  - destruct (randomChoose_cons w seed 0 u us) as (h & -> & Hin).
    cbn [mbind option_bind]. split; [split; discriminate|].
    intros t [= <-]. now repeat split.
Qed.

End Construction2.

(** ** The header transport *)

Section TransportFacts.

Lemma fold_Header_Add (l : list (string * string)) :
  forall req,
    fold_left (fun r kv => Header_Add (fst kv) (snd kv) r) l req
    = {| Method := Method req; Url := Url req; Header := Header req ++ l |}.
Proof.
  induction l as [|[k v] l IH]; intros req; cbn [fold_left].
  - rewrite app_nil_r. now destruct req.
  - rewrite IH. unfold Header_Add. cbn [Method Url Header fst snd].
    now rewrite <- app_assoc.
Qed.

(** X10: [RoundTrip] hands to the inner round tripper the request with its
    method, URL and earlier headers untouched, followed by every default
    header once; nothing the request already carries is replaced. For the
    transport [New] builds, whose only default header is [User-Agent], the
    request gains exactly that header, and a nil round tripper given to
    [newAddHeaderTransport] stands for the default transport. *)
Theorem RoundTrip_adds_headers (visit : LangMap -> list (string * string))
  (adt : addHeaderTransport) (req : Request) :
  visit (defaultHeaders adt) ≡ₚ map_to_list (defaultHeaders adt) ->
  (exists added,
      added ≡ₚ map_to_list (defaultHeaders adt)
      /\ RoundTrip visit adt req
         = T adt {| Method := Method req; Url := Url req;
                    Header := Header req ++ added |})
  /\ (forall userAgent,
         defaultHeaders adt = {[ "User-Agent" := userAgent ]} ->
         RoundTrip visit adt req
         = T adt {| Method := Method req; Url := Url req;
                    Header := Header req ++ [("User-Agent", userAgent)] |})
  /\ (forall DefaultTransport headers,
         T (newAddHeaderTransport DefaultTransport None headers)
         = DefaultTransport).
Proof.
  intros Hperm. unfold RoundTrip. rewrite fold_Header_Add.
  split; [eauto|]. split; [|reflexivity].
  intros userAgent Hd. rewrite Hd in Hperm |- *.
  rewrite map_to_list_singleton in Hperm.
  apply Permutation_singleton_r in Hperm. now rewrite Hperm.
Qed.

End TransportFacts.

(** ** The string functions the row parser relies on *)

Section Substrings.

Lemma substring_length (s : string) :
  forall n m, String.length (substring n m s) = Nat.min m (String.length s - n).
Proof.
  induction s as [|c s IH]; intros n m.
  - destruct n, m; reflexivity.
  - destruct n as [|n].
    + destruct m as [|m]; [reflexivity|].
      cbn [substring String.length]. rewrite IH. cbn. lia.
    + cbn [substring String.length]. rewrite IH. cbn. lia.
Qed.

(** An occurrence [strings.Index] reports lies within the string. *)
Lemma Index_bound (s substr : string) :
  substr <> EmptyString ->
  0 <= gostrings.Index s substr ->
  gostrings.Index s substr + gostrings.len substr <= gostrings.len s.
Proof.
  unfold gostrings.Index, gostrings.len. intros Hne Hpos.
  destruct (String.index 0 substr s) as [n|] eqn:E; [|lia].
  apply index_correct1 in E.
  assert (String.length (substring n (String.length substr) s)
          = String.length substr) as HL by now rewrite E.
  rewrite substring_length in HL.
  assert (String.length substr <> 0)%nat.
  { destruct substr; [congruence|cbn; lia]. }
  lia.
Qed.

Lemma Index_ge (s substr : string) : -1 <= gostrings.Index s substr.
Proof. unfold gostrings.Index. destruct (String.index 0 substr s); lia. Qed.

Lemma slice_Some (s : string) (i j : Z) :
  0 <= i <= j -> j <= gostrings.len s ->
  exists r, gostrings.slice s i j = Some r /\ gostrings.len r = j - i.
Proof.
  intros Hij Hj. unfold gostrings.slice.
  destruct (Z.leb_spec 0 i), (Z.leb_spec i j), (Z.leb_spec j (gostrings.len s));
    try lia.
  cbn [andb]. eexists. split; [reflexivity|].
  unfold gostrings.len in *. rewrite substring_length. lia.
Qed.

Lemma slice_None (s : string) (i j : Z) :
  i < 0 \/ j < i \/ gostrings.len s < j -> gostrings.slice s i j = None.
Proof.
  intros H. unfold gostrings.slice.
  destruct (Z.leb_spec 0 i), (Z.leb_spec i j), (Z.leb_spec j (gostrings.len s));
    cbn [andb]; solve [reflexivity | lia].
Qed.

End Substrings.

(** ** The rows of the documentation page *)

Section RowFacts.

Context {lib : GoLib} {consts : Constants}.

Lemma len_zero (s : string) : gostrings.len s = 0 -> s = EmptyString.
Proof. unfold gostrings.len. destruct s; [reflexivity|cbn; lia]. Qed.

(** The three ways the body of the loop ends, read off the positions of
    ["<td>"], ["</td>"] and ["</code>"] in the row. *)
Lemma row_entry_cases (tr : string) :
  let ini := gostrings.Index tr "<td>" in
  let end_ := gostrings.Index tr "</td>" in
  let code := gostrings.Index tr "</code>" in
  (ini < 0 \/ end_ < 0 \/ end_ = ini + 4) /\ row_entry tr = Some None
  \/ (0 <= ini /\ 0 <= end_ /\ (end_ < ini + 4 \/ ini + 4 < end_ /\ code < 2))
     /\ row_entry tr = None
  \/ (0 <= ini /\ ini + 4 < end_ /\ 2 <= code)
     /\ exists shortname fullname,
          gostrings.slice tr (ini + 4) end_ = Some fullname
          /\ gostrings.len fullname = end_ - (ini + 4)
          /\ gostrings.slice tr (code - 2) code = Some shortname
          /\ gostrings.len shortname = 2
          /\ row_entry tr = Some (Some (ToLower shortname, ToLower fullname)).
Proof.
  intros ini end_ code. unfold row_entry. fold ini. fold end_. fold code.
  assert (0 <= end_ -> end_ + 5 <= gostrings.len tr) as Hb.
  { apply (Index_bound tr "</td>"). discriminate. }
  assert (0 <= code -> code + 7 <= gostrings.len tr) as Hb2.
  { apply (Index_bound tr "</code>"). discriminate. }
  clearbody ini end_ code.
  destruct (Z.ltb_spec ini 0) as [Hi|Hi]; [left; split; [lia|reflexivity]|].
  destruct (Z.ltb_spec end_ 0) as [He|He]; [left; split; [lia|reflexivity]|].
  cbn [orb]. specialize (Hb He).
  destruct (Z.lt_ge_cases end_ (ini + 4)) as [Hlt|Hge].
  { right; left. split; [lia|].
    rewrite (slice_None tr (ini + 4) end_) by lia. reflexivity. }
  destruct (slice_Some tr (ini + 4) end_ ltac:(lia) ltac:(lia))
    as (fullname & Hfull & Hlen).
  rewrite Hfull. cbn [mbind option_bind]. rewrite Hlen.
  destruct (Z.eqb_spec (end_ - (ini + 4)) 0) as [Hz|Hnz].
  { left. split; [lia|reflexivity]. }
  destruct (Z.lt_ge_cases code 2) as [Hc|Hc].
  { right; left. split; [lia|].
    rewrite (slice_None tr (code - 2) code) by lia. reflexivity. }
  specialize (Hb2 ltac:(lia)).
  destruct (slice_Some tr (code - 2) code ltac:(lia) ltac:(lia))
    as (shortname & Hshort & Hlen2).
  right; right. split; [lia|]. exists shortname, fullname.
  rewrite Hshort. cbn [mbind option_bind]. rewrite Hlen2.
  replace (code - (code - 2)) with 2 in * by lia.
  repeat split; try assumption; lia.
Qed.

(** X11: a row panics exactly when both ["<td>"] and ["</td>"] occur in it and
    either ["</td>"] starts before the cell opened by ["<td>"] ends, or the
    cell is not empty and ["</code>"] is missing or has fewer than two bytes
    in front of it. A row without one of the two marks, or with an empty
    first cell, is skipped. *)
Theorem row_entry_panics_iff (tr : string) :
  let ini := gostrings.Index tr "<td>" in
  let end_ := gostrings.Index tr "</td>" in
  let code := gostrings.Index tr "</code>" in
  (row_entry tr = None
   <-> 0 <= ini /\ 0 <= end_
       /\ (end_ < ini + 4 \/ ini + 4 < end_ /\ code < 2))
  /\ (row_entry tr = Some None <-> ini < 0 \/ end_ < 0 \/ end_ = ini + 4).
Proof.
  intros ini end_ code.
  destruct (row_entry_cases tr)
    as [[H ->]|[[H ->]|[H (s & f & _ & _ & _ & _ & ->)]]];
    fold ini end_ code in H; split; split; intros; try discriminate;
    try assumption; try reflexivity; lia.
Qed.

(** X12: the entry of a row: the short name is the lowercased two bytes in front
    of the first ["</code>"], never more and never less, and the full name
    the lowercased text between the first ["<td>"] and the first
    ["</td>"], which is not empty. *)
Theorem row_entry_two_bytes (tr k v : string) :
  row_entry tr = Some (Some (k, v)) ->
  let ini := gostrings.Index tr "<td>" in
  let end_ := gostrings.Index tr "</td>" in
  let code := gostrings.Index tr "</code>" in
  exists shortname fullname,
    k = ToLower shortname /\ v = ToLower fullname
    /\ gostrings.slice tr (code - 2) code = Some shortname
    /\ String.length shortname = 2%nat
    /\ gostrings.slice tr (ini + 4) end_ = Some fullname
    /\ fullname <> EmptyString.
Proof.
  intros Hrow ini end_ code.
  destruct (row_entry_cases tr)
    as [[_ H]|[[_ H]|[Hpos (s & f & Hf & Hfl & Hs & Hsl & H)]]];
    rewrite H in Hrow; try discriminate.
  injection Hrow as <- <-. fold ini end_ code in Hpos, Hf, Hfl, Hs.
  clearbody ini end_ code.
  exists s, f. repeat split; try assumption.
  - unfold gostrings.len in Hsl. lia.
  - intros ->. change (gostrings.len EmptyString) with 0 in Hfl. lia.
Qed.

End RowFacts.

(** ** The table after a refresh *)

Section RefreshFacts.

Context {lib : GoLib} {consts : Constants} (w : World).

Lemma rows_loop_panics (l : nat) (trs : list string) :
  forall h, parsed_entries trs = None -> rows_loop trs l h = None.
Proof.
  induction trs as [|tr rest IH]; intros h; [discriminate|].
  cbn [parsed_entries rows_loop].
  destruct (row_entry tr) as [[[k v]|]|]; cbn [mbind option_bind];
    [| |reflexivity].
  - destruct (parsed_entries rest) as [es|] eqn:E; [discriminate|].
    intros _. destruct (map_assign l k v h) as [h1|]; [|reflexivity].
    cbn [mbind option_bind]. now apply IH.
  - destruct (parsed_entries rest) as [es|] eqn:E; [discriminate|].
    intros _. now apply IH.
Qed.

Lemma rows_loop_fold (l : nat) (trs : list string) :
  forall h m es,
    h !! l = Some m ->
    parsed_entries trs = Some es ->
    rows_loop trs l h = Some (<[l := fold_left assign_entry es m]> h).
Proof.
  induction trs as [|tr rest IH]; intros h m es Hm Hes.
  - injection Hes as <-. cbn. now rewrite insert_id.
  - cbn [parsed_entries rows_loop] in *.
    destruct (row_entry tr) as [[[k v]|]|]; cbn [mbind option_bind] in *;
      [| |discriminate].
    + destruct (parsed_entries rest) as [es'|]; [|discriminate].
      injection Hes as <-. unfold map_assign. rewrite Hm.
      cbn [mbind option_bind].
      rewrite (IH _ (<[k := v]> m) es' (lookup_insert_eq _ _ _) eq_refl).
      now rewrite insert_insert_eq.
    + destruct (parsed_entries rest) as [es'|]; [|discriminate].
      injection Hes as <-. now apply IH.
Qed.

Lemma fold_assign_union (es : list (string * string)) :
  forall m : LangMap,
    fold_left assign_entry es m = list_to_map (reverse es) ∪ m.
Proof.
  induction es as [|[k v] es IH]; intros m.
  - cbn. now rewrite (left_id_L ∅ (∪)).
  - cbn [fold_left]. rewrite IH, reverse_cons, list_to_map_app.
    unfold assign_entry. cbn [fst snd list_to_map foldr].
    rewrite insert_empty, <- (assoc_L (∪)).
    now rewrite <- insert_union_singleton_l.
Qed.

(** X13: a refresh that reaches the rows. With a table that is not nil and rows
    none of which panics, the call returns the table's own reference with a
    nil error, whatever the status code of the page and whatever the flag;
    the table afterwards is the old one overlaid with the parsed entries, a
    later row winning over an earlier one with the same short name; a key
    no row names keeps its value; and the other maps of the heap are as
    they were. *)
Theorem refresh_table (flag : bool) (g : Globals) (m : LangMap)
  (res : Response) (bodyStr : string) (trs : list string)
  (es : list (string * string)) :
  heap g !! languages g = Some m ->
  Do w plain_client langs_request = inl res ->
  ReadAll res = inl bodyStr ->
  table_rows bodyStr = Some trs ->
  parsed_entries trs = Some es ->
  let m' := list_to_map (reverse es) ∪ m in
  GetAvaliableLanguagesHTTP w flag g
  = Some ((languages g, None),
          {| heap := <[languages g := m']> (heap g);
             languages := languages g |})
  /\ (forall k, k ∉ es.*1 -> m' !! k = m !! k)
  /\ (forall es1 k v es2,
         es = es1 ++ (k, v) :: es2 -> k ∉ es2.*1 -> m' !! k = Some v)
  /\ (forall l', l' <> languages g ->
                 <[languages g := m']> (heap g) !! l' = heap g !! l').
Proof.
  intros Hm Hdo Hread Htab Hes m'. split; [|split; [|split]].
  - unfold GetAvaliableLanguagesHTTP. rewrite Hdo, Hread, Htab.
    cbn [mbind option_bind].
    rewrite (rows_loop_fold _ _ _ _ _ Hm Hes), fold_assign_union.
    cbn [mbind option_bind]. now destruct flag.
  - intros k Hk. subst m'. apply lookup_union_r.
    apply not_elem_of_list_to_map_1. rewrite fmap_reverse.
    now rewrite elem_of_reverse.
  - intros es1 k v es2 -> Hk. subst m'.
    apply lookup_union_Some_l.
    rewrite reverse_app, reverse_cons, <- app_assoc, list_to_map_app.
    rewrite lookup_union_r.
    + cbn. apply lookup_insert_eq.
    + apply not_elem_of_list_to_map_1. rewrite fmap_reverse.
      now rewrite elem_of_reverse.
  - intros l' Hl'. now apply lookup_insert_ne.
Qed.

(** X14: refreshing twice from the same page is refreshing once: the second
    call returns the same reference and leaves the globals of the first. *)
Theorem refresh_idempotent (flag flag' : bool) (g g1 : Globals) (l : nat) :
  is_Some (heap g !! languages g) ->
  GetAvaliableLanguagesHTTP w flag g = Some ((l, None), g1) ->
  GetAvaliableLanguagesHTTP w flag' g1 = Some ((l, None), g1).
Proof.
  intros [m Hm] H1.
  unfold GetAvaliableLanguagesHTTP in H1.
  destruct (Do w plain_client langs_request) as [res|msg] eqn:Hdo;
    [|discriminate].
  destruct (ReadAll res) as [bodyStr|msg] eqn:Hread; [|discriminate].
  destruct (table_rows bodyStr) as [trs|] eqn:Htab;
    cbn [mbind option_bind] in H1; [|discriminate].
  destruct (parsed_entries trs) as [es|] eqn:Hes.
  2: { rewrite rows_loop_panics in H1 by assumption. discriminate. }
  rewrite (rows_loop_fold _ _ _ _ _ Hm Hes), fold_assign_union in H1.
  cbn [mbind option_bind] in H1.
  replace (if flag then languages g else languages g) with (languages g)
    in H1 by now destruct flag.
  injection H1 as <- <-.
  set (m1 := list_to_map (reverse es) ∪ m).
  assert (heap {| heap := <[languages g := m1]> (heap g);
                  languages := languages g |}
          !! languages g = Some m1) as Hm1 by apply lookup_insert_eq.
  destruct (refresh_table flag' _ m1 res bodyStr trs es Hm1 Hdo Hread Htab Hes)
    as (-> & _).
  cbn [heap languages]. rewrite insert_insert_eq.
  subst m1. rewrite (assoc_L (∪)), (idemp_L (∪)). reflexivity.
Qed.

(** X15: what can go wrong in a refresh. When it returns an error, the error is
    the one of the transport or of reading the body, the reference is the
    table's and the globals are untouched. When the page holds no
    ["<table>"] or no ["</table>"], or the closing mark comes first, or a
    row panics, the call panics: no error is returned for a page of an
    unexpected shape. *)
Theorem refresh_failures (flag : bool) (g : Globals) :
  (forall l e g',
      GetAvaliableLanguagesHTTP w flag g = Some ((l, Some e), g') ->
      l = languages g /\ g' = g
      /\ exists msg,
           (Do w plain_client langs_request = inr msg
            /\ e = TransportError msg)
           \/ (exists res, Do w plain_client langs_request = inl res
                           /\ ReadAll res = inr msg /\ e = ReadError msg))
  /\ (forall res bodyStr,
         Do w plain_client langs_request = inl res ->
         ReadAll res = inl bodyStr ->
         gostrings.Index bodyStr "<table>" = -1
         \/ gostrings.Index bodyStr "</table>" = -1
         \/ gostrings.Index bodyStr "</table>"
            < gostrings.Index bodyStr "<table>" ->
         GetAvaliableLanguagesHTTP w flag g = None)
  /\ (forall res bodyStr trs,
         Do w plain_client langs_request = inl res ->
         ReadAll res = inl bodyStr ->
         table_rows bodyStr = Some trs ->
         parsed_entries trs = None ->
         GetAvaliableLanguagesHTTP w flag g = None).
Proof.
  split; [|split].
  - intros l e g' H. unfold GetAvaliableLanguagesHTTP in H.
    destruct (Do w plain_client langs_request) as [res|msg] eqn:Hdo.
    + destruct (ReadAll res) as [bodyStr|msg] eqn:Hread.
      * destruct (table_rows bodyStr) as [trs|];
          cbn [mbind option_bind] in H; [|discriminate].
        destruct (rows_loop trs (languages g) (heap g));
          cbn [mbind option_bind] in H; discriminate.
      * injection H as <- <- <-. repeat split. exists msg. right. eauto.
    + injection H as <- <- <-. repeat split. exists msg. left. eauto.
  - intros res bodyStr Hdo Hread Hshape.
    unfold GetAvaliableLanguagesHTTP, table_rows. rewrite Hdo, Hread.
    pose proof (Index_ge bodyStr "<table>").
    rewrite (slice_None bodyStr) by lia. reflexivity.
  - intros res bodyStr trs Hdo Hread Htab Hes.
    unfold GetAvaliableLanguagesHTTP. rewrite Hdo, Hread, Htab.
    cbn [mbind option_bind]. now rewrite rows_loop_panics.
Qed.

End RefreshFacts.

(** ** Which key [GetValidLanguageKey] returns *)

Section KeyChoice.

Context {lib : GoLib} {consts : Constants}.

(** X16: when exactly one key of the table matches the lowercased input, as the
    key itself or through its value, that key is returned with a nil error
    in whatever order the loop visits the table. *)
Theorem GetValidLanguageKey_unique_match
  (visit : LangMap -> list (string * string)) (g : Globals)
  (lang k v : string) :
  let m := deref g (languages g) in
  visit m ≡ₚ map_to_list m ->
  m !! k = Some v ->
  k = ToLower lang \/ v = ToLower lang ->
  (forall k' v',
      m !! k' = Some v' -> k' = ToLower lang \/ v' = ToLower lang -> k' = k) ->
  GetValidLanguageKey visit g lang = (k, None).
Proof.
  intros m Hperm Hk Hmatch Huniq.
  destruct (GetValidLanguageKey_spec visit g lang Hperm)
    as [[_ (k1 & v1 & -> & Hk1 & Hm1)]|[Hno _]].
  - now rewrite (Huniq k1 v1 Hk1 Hm1).
  - destruct Hno. eauto.
Qed.

(** X17: every key that matches can be the answer: for each of them there is an
    order of the loop under which it is the one returned. With two matching
    keys the result therefore depends on the order Go happens to take. *)
Theorem GetValidLanguageKey_any_match (g : Globals) (lang k v : string) :
  let m := deref g (languages g) in
  m !! k = Some v ->
  k = ToLower lang \/ v = ToLower lang ->
  exists visit,
    visit m ≡ₚ map_to_list m
    /\ GetValidLanguageKey visit g lang = (k, None).
Proof.
  intros m Hk Hmatch.
  exists (fun m0 => (k, v) :: map_to_list (delete k m0)). split.
  - rewrite <- (insert_delete_id m k v Hk) at 2.
    symmetry. apply map_to_list_insert, lookup_delete_eq.
  - unfold GetValidLanguageKey. fold m. cbn [range_find].
    destruct Hmatch as [->| ->].
    + now rewrite String.eqb_refl.
    + rewrite String.eqb_refl, orb_true_r. reflexivity.
Qed.

(** X18: the map [GetAvaliableLanguages] returns is the table itself and no
    copy: an entry a caller assigns through it is in the table afterwards,
    and [GetValidLanguageKey] accepts it. *)
Theorem GetAvaliableLanguages_is_the_table
  (visit : LangMap -> list (string * string)) (g : Globals)
  (h' : gmap nat LangMap) (k v lang : string) :
  map_assign (GetAvaliableLanguages g) k v (heap g) = Some h' ->
  let g' := {| heap := h'; languages := languages g |} in
  visit (deref g' (languages g')) ≡ₚ map_to_list (deref g' (languages g')) ->
  ToLower lang = k ->
  deref g' (GetAvaliableLanguages g') !! k = Some v
  /\ snd (GetValidLanguageKey visit g' lang) = None.
Proof.
  intros Ha g' Hperm Hlang.
  destruct (map_assign_spec _ _ _ _ _ Ha) as (m & Hm & ->).
  assert (deref g' (languages g') !! k = Some v) as Hk.
  { unfold deref, g', GetAvaliableLanguages. cbn [heap languages].
    rewrite lookup_insert_eq. cbn. apply lookup_insert_eq. }
  split; [exact Hk|].
  destruct (GetValidLanguageKey_spec visit g' lang Hperm)
    as [[_ (k1 & v1 & -> & _)]|[Hno _]]; [reflexivity|].
  destruct Hno. exists k, v. split; [exact Hk|]. now left.
Qed.

End KeyChoice.

(** ** The further properties at work on the sample cases *)

Section OnCases.

#[local] Existing Instance Sample.lib.
#[local] Existing Instance Sample.consts.

(** Two sentences are joined into "Hello World!". *)
Lemma translate_joins_sentences_witness :
  translate Cases.world_ok Sample.translator Cases.cl 0 "Ola Mundo!" "pt" "en"
    Token.empty_store
  = (("Hello World!", None), Cases.st1).
Proof.
  destruct (getReq Cases.world_ok Sample.translator Cases.cl 0 "Ola Mundo!" "pt"
              "en" Token.empty_store) as [[req|e] st'] eqn:E;
    [|vm_compute in E; discriminate].
  assert (st' = Cases.st1) as -> by (vm_compute in E; now injection E).
  apply (translate_joins_sentences Cases.world_ok Sample.translator Cases.cl 0
           "Ola Mundo!" "pt" "en" Token.empty_store Cases.st1 req
           {| StatusCode := 200; ReadAll := inl "{}" |} "{}"
           [ {| Trans := "Hello "; Orig := "Ola "; Backend := 1 |};
             {| Trans := "World!"; Orig := "Mundo!"; Backend := 1 |} ]);
    [exact E| |reflexivity|reflexivity|reflexivity].
  vm_compute in E. injection E as <-. reflexivity.
Defined.

(** With the endpoint at 503, [Translate] returns no result and the error;
    with the endpoint at 200, a result and no error. *)
Lemma Translate_result_or_error_witness :
  fst (fst (Translate Sample.world Sample.translator 0 "Hi" "AUTO" "PT"
              Token.empty_store)) = None
  /\ fst (fst (Translate Cases.world_ok Sample.translator 0 "Ola Mundo!"
                 "PT" "EN" Token.empty_store))
     = Some {| Src := "pt"; Dest := "en"; Origin := "Ola Mundo!";
               Text := "Hello World!" |}.
Proof.
  split.
  - destruct (Translate_result_or_error Sample.world Sample.translator 0
                "Hi" "AUTO" "PT" Token.empty_store) as (_ & _ & _ & H & _).
    apply H. vm_compute. discriminate.
  - destruct (Translate_result_or_error Cases.world_ok Sample.translator 0
                "Ola Mundo!" "PT" "EN" Token.empty_store)
      as (_ & _ & _ & _ & H).
    rewrite H; [|vm_compute; reflexivity]. vm_compute. reflexivity.
Defined.

(** At 503 [detect] returns the zero value. *)
Lemma detect_value_with_error_witness :
  fst (fst (detect Sample.world Sample.translator Cases.cl 0 "Hi" "pt"
              Token.empty_store)) = LDResponse_zero.
Proof.
  destruct (detect_value_with_error Sample.world Sample.translator Cases.cl 0
              "Hi" "pt" Token.empty_store) as (H & _).
  apply (H (Errorf "expected statusCode 200, got: 503; resp: 503")).
  - vm_compute. reflexivity.
  - discriminate.
Defined.

(** The service URL [translate.google.com/?x=1&]. *)
Lemma getReq_host_with_query_witness :
  exists tk st',
    getReq Sample.world Cases.translator_with_query Cases.cl 0 "Hi" "auto" "pt"
      Token.empty_store
    = (inl {| Method := "GET";
              Url := {| Base := "https://translate.google.com/";
                        RawQuery :=
                          Encode
                            (add_params
                               (ParseQuery "x=1&/translate_a/single")
                               "Hi" "auto" "pt" tk);
                        Fragment := EmptyString |};
              Header := [] |}, st').
Proof.
  destruct (getReq_host_with_query Sample.world Cases.translator_with_query
              Cases.cl 0 "Hi" "auto" "pt" "translate.google.com/" "x=1&"
              Token.empty_store
              {| Method := "GET";
                 Url := {| Base := "https://translate.google.com/";
                           RawQuery := "x=1&/translate_a/single";
                           Fragment := EmptyString |};
                 Header := [] |} eq_refl eq_refl eq_refl eq_refl eq_refl)
    as (tk & st' & _ & H).
  exists tk, st'. exact H.
Defined.

(** The service URL with a tab in front. *)
Lemma getReq_host_with_control_byte_witness :
  translate Sample.world Cases.translator_with_tab Cases.cl 0 "Hi" "auto" "pt"
    Token.empty_store
  = ((EmptyString, Some (UrlError "invalid control character in URL")), Cases.st1).
Proof.
  destruct (getReq_host_with_control_byte Sample.world
              Cases.translator_with_tab Cases.cl 0 "Hi" "auto" "pt"
              Token.empty_store eq_refl eq_refl) as (_ & H & _).
  exact H.
Defined.

(** The sample constants have default service URLs. *)
Lemma Part002_New_panics_iff_witness :
  Part002.New Sample.world 0 [Sample.proxy_config] <> None.
Proof.
  destruct (Part002_New_panics_iff Sample.world 0 [Sample.proxy_config])
    as ((H & _) & _).
  intros E. apply H in E. discriminate.
Defined.

(** The transport of [New] on a request that has a cookie already. *)
Lemma RoundTrip_adds_headers_witness :
  RoundTrip map_to_list
    (newAddHeaderTransport (Do Sample.world Cases.cl) (Some (fun r => inr (Method r)))
       {[ "User-Agent" := "Mozilla/5.0" ]})
    langs_request
  = inr "GET"
  /\ forall inner : RoundTripper,
       RoundTrip map_to_list
         (newAddHeaderTransport (Do Sample.world Cases.cl) (Some inner)
            {[ "User-Agent" := "Mozilla/5.0" ]})
         langs_request
       = inner {| Method := "GET"; Url := Url langs_request;
                  Header := [("Cookie",
                              "_ga_devsite=GA1.3.3578724760.1690567683");
                             ("User-Agent", "Mozilla/5.0")] |}.
Proof.
  split; [reflexivity|]. intros inner.
  destruct (RoundTrip_adds_headers map_to_list
              (newAddHeaderTransport (Do Sample.world Cases.cl) (Some inner)
                 {[ "User-Agent" := "Mozilla/5.0" ]})
              langs_request (reflexivity _)) as (_ & H & _).
  exact (H "Mozilla/5.0" eq_refl).
Defined.

(** A row without ["</code>"] panics, a row without a cell is skipped. *)
Lemma row_entry_panics_iff_witness :
  row_entry "<td>Klingon</td><td>tlh</td></tr>" = None
  /\ row_entry "<th>Language</th>" = Some None.
Proof.
  split.
  - apply (proj1 (row_entry_panics_iff "<td>Klingon</td><td>tlh</td></tr>")).
    vm_compute. repeat split; try discriminate. right. split; reflexivity.
  - apply (proj2 (row_entry_panics_iff "<th>Language</th>")).
    left. reflexivity.
Defined.

(** The code [zh-CN] is cut down to its last two bytes. *)
Lemma row_entry_two_bytes_witness :
  row_entry "<td>Chinese</td><td><code>zh-CN</code></td></tr>"
  = Some (Some ("cn", "chinese"))
  /\ exists shortname fullname,
       "cn" = ToLower shortname /\ "chinese" = ToLower fullname
       /\ String.length shortname = 2%nat.
Proof.
  assert (row_entry "<td>Chinese</td><td><code>zh-CN</code></td></tr>"
          = Some (Some ("cn", "chinese"))) as E by (vm_compute; reflexivity).
  split; [exact E|].
  destruct (row_entry_two_bytes _ _ _ E) as (s & f & Hk & Hv & _ & Hl & _).
  exists s, f. auto.
Defined.

(** The refresh of the sample table from the sample page. *)
Lemma refresh_table_witness :
  GetAvaliableLanguagesHTTP Sample.world true Sample.globals
  = Some ((0%nat, None),
          {| heap := {[ 0%nat := {[ "en" := "english"; "pt" := "portuguese";
                                    "tl" := "klingon" ]} ]};
             languages := 0%nat |}).
Proof.
  set (m := ({[ "en" := "english"; "pt" := "portuguese" ]} : LangMap)).
  set (res := {| StatusCode := 200; ReadAll := inl Sample.langs_body |}).
  set (trs := [""; "<td>Klingon</td><td><code>TL</code></td></tr>"]).
  assert (heap Sample.globals !! languages Sample.globals = Some m) as H1
    by (vm_compute; reflexivity).
  assert (Do Sample.world plain_client langs_request = inl res) as H2
    by reflexivity.
  assert (table_rows Sample.langs_body = Some trs) as H4
    by (vm_compute; reflexivity).
  assert (parsed_entries trs = Some [("tl", "klingon")]) as H5
    by (vm_compute; reflexivity).
  destruct (refresh_table Sample.world true Sample.globals m res
              Sample.langs_body trs [("tl", "klingon")] H1 H2 eq_refl H4 H5)
    as (H & _).
  rewrite H. vm_compute. reflexivity.
Defined.

(** A second refresh of the sample table changes nothing. *)
Lemma refresh_idempotent_witness :
  let g1 :=
    {| heap := {[ 0%nat := {[ "en" := "english"; "pt" := "portuguese";
                              "tl" := "klingon" ]} ]};
       languages := 0%nat |} in
  GetAvaliableLanguagesHTTP Sample.world false g1 = Some ((0%nat, None), g1).
Proof.
  intros g1.
  apply (refresh_idempotent Sample.world true false Sample.globals g1 0%nat).
  - eexists. vm_compute. reflexivity.
  - vm_compute. reflexivity.
Defined.

(** A page without a table makes the refresh panic. *)
Lemma refresh_failures_witness :
  GetAvaliableLanguagesHTTP Cases.world_ok false Sample.globals = None.
Proof.
  destruct (refresh_failures Cases.world_ok false Sample.globals)
    as (_ & H & _).
  apply (H {| StatusCode := 404; ReadAll := inl "<html></html>" |}
           "<html></html>"); [reflexivity|reflexivity|].
  left. reflexivity.
Defined.

(** In the sample table only "pt" matches "Portuguese", also when the
    table is visited backwards. *)
Lemma GetValidLanguageKey_unique_match_witness :
  GetValidLanguageKey (fun m => reverse (map_to_list m)) Sample.globals
    "Portuguese" = ("pt", None).
Proof.
  apply (GetValidLanguageKey_unique_match (fun m => reverse (map_to_list m))
           Sample.globals "Portuguese" "pt" "portuguese"
           (reverse_Permutation _)).
  - vm_compute. reflexivity.
  - right. reflexivity.
  - intros k' v' Hk' Hm.
    change (deref Sample.globals (languages Sample.globals))
      with ({[ "en" := "english"; "pt" := "portuguese" ]} : LangMap) in Hk'.
    change (ToLower "Portuguese") with "portuguese" in Hm.
    destruct (decide (k' = "en")) as [->|Hen].
    { rewrite lookup_insert_eq in Hk'. injection Hk' as <-.
      destruct Hm; discriminate. }
    rewrite lookup_insert_ne in Hk' by congruence.
    destruct (decide (k' = "pt")) as [->|Hpt]; [reflexivity|].
    rewrite lookup_singleton_ne in Hk' by congruence.
    discriminate.
Defined.

(** In the ambiguous table the input "PT" can be answered by "pt" and by
    "xx", depending on the order. *)
Lemma GetValidLanguageKey_any_match_witness :
  (exists visit,
      visit (deref Cases.ambiguous_globals 0%nat)
      ≡ₚ map_to_list (deref Cases.ambiguous_globals 0%nat)
      /\ GetValidLanguageKey visit Cases.ambiguous_globals "PT" = ("pt", None))
  /\ GetValidLanguageKey map_to_list Cases.ambiguous_globals "PT"
     = ("xx", None).
Proof.
  split; [|vm_compute; reflexivity].
  apply (GetValidLanguageKey_any_match Cases.ambiguous_globals "PT" "pt"
           "portuguese").
  - vm_compute. reflexivity.
  - left. reflexivity.
Defined.

(** A caller adds Klingon through the returned map. *)
Lemma GetAvaliableLanguages_is_the_table_witness :
  let g' :=
    {| heap := {[ 0%nat := {[ "en" := "english"; "pt" := "portuguese";
                              "tlh" := "klingon" ]} ]};
       languages := 0%nat |} in
  map_assign (GetAvaliableLanguages Sample.globals) "tlh" "klingon"
    (heap Sample.globals) = Some (heap g')
  /\ snd (GetValidLanguageKey map_to_list g' "TLH") = None.
Proof.
  intros g'.
  assert (map_assign (GetAvaliableLanguages Sample.globals) "tlh" "klingon"
            (heap Sample.globals) = Some (heap g')) as E
    by (vm_compute; reflexivity).
  split; [exact E|].
  assert (ToLower "TLH" = "tlh") as Hl by (vm_compute; reflexivity).
  destruct (GetAvaliableLanguages_is_the_table map_to_list Sample.globals
              (heap g') "tlh" "klingon" "TLH" E (reflexivity _) Hl)
    as (_ & H).
  exact H.
Defined.

End OnCases.
